(** * SerraStats: the filter and ranking pipeline of [src/App.tsx]

    A shallow embedding of the single React component of the repository:
    the values it manipulates (JavaScript strings, numbers, arrays and one
    plain object used as a dictionary), its event handlers as functions on
    the component state, and the two derived computations [getStatsByFlag]
    and [getCountriesByCount]. *)

From Stdlib Require Import ZArith List String Ascii Bool Lia Sorted Permutation.
From Stdlib Require Import DecimalString DecimalPos DecimalN.
From Stdlib Require Import SpecFloat.
Import ListNotations.

Local Open Scope string_scope.
Local Open Scope Z_scope.

(** ** The JavaScript values the component relies on *)

Module JS.

(** Strings are held as the bytes of their UTF-8 encoding; the component
    only compares them, tests them for emptiness, scans them ([parseInt])
    and concatenates them.

    A Number is an IEEE 754 binary64 value; the Standard Library's
    executable specification of binary floating point is used as it is,
    with round to nearest, ties to even. *)
Definition prec : Z := 53.
Definition emax : Z := 1024.

Definition number : Type := spec_float.

Definition NaN : number := S754_nan.

(** The Number whose value is the integer [z], correctly rounded. *)
Definition of_Z (z : Z) : number := binary_normalize prec emax z 0 false.

Definition of_nat (n : nat) : number := of_Z (Z.of_nat n).

Definition div (x y : number) : number := SFdiv prec emax x y.
Definition mul (x y : number) : number := SFmul prec emax x y.

(** [x === y] on two Numbers: false as soon as one is NaN, and the two
    zeros are equal. *)
Definition strict_eq (x y : number) : bool := SFeqb x y.

(** ToBoolean on a String: only the empty string is falsy. *)
Definition truthy (s : string) : bool :=
  match s with
  | EmptyString => false
  | String _ _ => true
  end.

(** [a === b] where [a] may be [undefined] and [b] is a String. *)
Definition opt_strict_eq (a : option string) (b : string) : bool :=
  match a with
  | Some a' => String.eqb a' b
  | None => false
  end.

(** *** parseInt(string) with no radix argument *)

(** White space and line terminators. Those of one byte: TAB, LF, VT, FF,
    CR and SP. *)
Definition is_white_space (c : ascii) : bool :=
  let n := nat_of_ascii c in
  ((9 <=? n) && (n <=? 13) || (n =? 32))%nat.

(** Of two bytes: U+00A0, no-break space. *)
Definition white_space_2 (c1 c2 : ascii) : bool :=
  ((nat_of_ascii c1 =? 194) && (nat_of_ascii c2 =? 160))%nat.

(** Of three bytes: U+1680, U+2000 to U+200A, U+2028, U+2029, U+202F,
    U+205F, U+3000 and U+FEFF. *)
Definition white_space_3 (c1 c2 c3 : ascii) : bool :=
  let n1 := nat_of_ascii c1 in
  let n2 := nat_of_ascii c2 in
  let n3 := nat_of_ascii c3 in
  ((n1 =? 225) && (n2 =? 154) && (n3 =? 128)
   || (n1 =? 226) && (n2 =? 128)
      && ((128 <=? n3) && (n3 <=? 138) || (n3 =? 168) || (n3 =? 169)
          || (n3 =? 175))
   || (n1 =? 226) && (n2 =? 129) && (n3 =? 159)
   || (n1 =? 227) && (n2 =? 128) && (n3 =? 128)
   || (n1 =? 239) && (n2 =? 187) && (n3 =? 191))%nat.

Fixpoint trim_start (s : string) : string :=
  match s with
  | EmptyString => s
  | String c1 r1 =>
      if is_white_space c1 then trim_start r1
      else
        match r1 with
        | EmptyString => s
        | String c2 r2 =>
            if white_space_2 c1 c2 then trim_start r2
            else
              match r2 with
              | EmptyString => s
              | String c3 r3 =>
                  if white_space_3 c1 c2 c3 then trim_start r3 else s
              end
        end
  end.

(** The value of a character as a digit, up to radix 16. *)
Definition digit_value (c : ascii) : option Z :=
  let n := Z.of_nat (nat_of_ascii c) in
  if (48 <=? n) && (n <=? 57) then Some (n - 48)
  else if (97 <=? n) && (n <=? 102) then Some (n - 87)
  else if (65 <=? n) && (n <=? 70) then Some (n - 55)
  else None.

Definition radix_digit (R : Z) (c : ascii) : option Z :=
  match digit_value c with
  | Some d => if d <? R then Some d else None
  | None => None
  end.

(** Reads the longest prefix of radix-[R] digits: [None] when it is empty,
    otherwise the integer it denotes ([acc] holds the digits read so far). *)
Fixpoint read_digits (R : Z) (s : string) (acc : option Z) : option Z :=
  match s with
  | String c r =>
      match radix_digit R c with
      | Some d =>
          read_digits R r (Some (match acc with Some a => a * R + d | None => d end))
      | None => acc
      end
  | EmptyString => acc
  end.

Definition strip_sign (s : string) : bool * string :=
  match s with
  | String "-" r => (true, r)
  | String "+" r => (false, r)
  | _ => (false, s)
  end.

Definition strip_hex_prefix (s : string) : Z * string :=
  match s with
  | String "0" (String "x" r) => (16, r)
  | String "0" (String "X" r) => (16, r)
  | _ => (10, s)
  end.

(** The integer read is rounded to the nearest Number. (Past twenty
    significant decimal digits an implementation is free to replace the
    following digits by zeros before rounding; that freedom is not
    modelled.) *)
Definition parseInt (input : string) : number :=
  let '(neg, s) := strip_sign (trim_start input) in
  let '(R, s) := strip_hex_prefix s in
  match read_digits R s None with
  | None => NaN
  | Some mathInt => binary_normalize prec emax (cond_Zopp neg mathInt) 0 neg
  end.

(** *** Decimal digits *)

(** The decimal representation of a non-negative integer, with no leading
    zero ("0" for zero). *)
Definition decimal (n : N) : string := NilEmpty.string_of_uint (N.to_uint n).

Fixpoint zeros (n : nat) : string :=
  match n with
  | O => ""
  | S n' => String "0" (zeros n')
  end.

(** *** Number.prototype.toFixed *)

(** The exact value [m * 2^e] of a finite Number as a fraction
    [num / den], the denominator being a power of two. *)
Definition exact_fraction (m : positive) (e : Z) : Z * Z :=
  if 0 <=? e then (Z.pos m * 2 ^ e, 1) else (Z.pos m, 2 ^ (- e)).

(** The integer [n] for which [n / 10^f] is closest to [num / den]; of two
    such integers the larger one. *)
Definition nearest_scaled (num den : Z) (f : nat) : Z :=
  (2 * num * 10 ^ Z.of_nat f + den) / (2 * den).

(** The digits of [n] with a decimal point before the last [f] of them,
    zeros added in front so that one digit at least precedes the point. *)
Definition fixed_notation (n : Z) (f : nat) : string :=
  let m := decimal (Z.to_N n) in
  match f with
  | O => m
  | _ =>
      let k := String.length m in
      let m := if (k <=? f)%nat then zeros (f + 1 - k) ++ m else m in
      let k := if (k <=? f)%nat then (f + 1)%nat else k in
      substring 0 (k - f) m ++ "." ++ substring (k - f) f m
  end.

Section ToFixed.

(** Number::toString is reached by [toFixed] only for a Number that is not
    finite or whose magnitude is at least 10^21; which digits it prints
    there is left open. *)
Variable Number_toString : number -> string.

Definition toFixed (x : number) (fractionDigits : nat) : string :=
  match x with
  | S754_nan | S754_infinity _ => Number_toString x
  | S754_zero _ => fixed_notation 0 fractionDigits
  | S754_finite neg m e =>
      let s := if neg then "-" else "" in
      let '(num, den) := exact_fraction m e in
      if 10 ^ 21 * den <=? num then s ++ Number_toString (SFabs x)
      else s ++ fixed_notation (nearest_scaled num den fractionDigits) fractionDigits
  end.

End ToFixed.

(** *** A plain object used as a dictionary *)

(** The own properties of an object created by [{}], in the order of their
    creation. Its prototype is Object.prototype, whose property names are
    found by every read of the object. *)
Definition object (V : Type) : Type := list (string * V).

Definition Object_prototype_keys : list string :=
  [ "constructor"; "__defineGetter__"; "__defineSetter__"; "hasOwnProperty";
    "__lookupGetter__"; "__lookupSetter__"; "isPrototypeOf";
    "propertyIsEnumerable"; "toString"; "valueOf"; "__proto__";
    "toLocaleString" ].

Inductive property (V : Type) : Type :=
  | Own (v : V)
  | Inherited
  | Undefined.
Arguments Own {V} v.
Arguments Inherited {V}.
Arguments Undefined {V}.

Fixpoint own {V : Type} (o : object V) (k : string) : option V :=
  match o with
  | [] => None
  | (k', v) :: o' => if String.eqb k' k then Some v else own o' k
  end.

Definition inherited (k : string) : bool :=
  existsb (String.eqb k) Object_prototype_keys.

(** [o[k]] *)
Definition get {V : Type} (o : object V) (k : string) : property V :=
  match own o k with
  | Some v => Own v
  | None => if inherited k then Inherited else Undefined
  end.

(** [o[k] = v] for a key that is an own property (its value is replaced,
    its position kept) or that is not found at all (a property is added
    after the existing ones). *)
Fixpoint set {V : Type} (o : object V) (k : string) (v : V) : object V :=
  match o with
  | [] => [(k, v)]
  | (k', v') :: o' =>
      if String.eqb k' k then (k', v) :: o' else (k', v') :: set o' k v
  end.

(** An array index is the canonical decimal form of an integer below
    2^32 - 1. *)
Definition is_digit (c : ascii) : bool :=
  let n := nat_of_ascii c in ((48 <=? n) && (n <=? 57))%nat.

Fixpoint all_digits (s : string) : bool :=
  match s with
  | EmptyString => true
  | String c r => is_digit c && all_digits r
  end.

Fixpoint digits_value (s : string) (acc : N) : N :=
  match s with
  | EmptyString => acc
  | String c r => digits_value r (acc * 10 + (N_of_ascii c - 48))%N
  end.

Definition array_index (k : string) : option N :=
  match k with
  | EmptyString => None
  | String c r =>
      if all_digits k && (negb (Ascii.eqb c "0") || String.eqb r "")
      then let n := digits_value k 0 in
           if (n <? 2 ^ 32 - 1)%N then Some n else None
      else None
  end.

(** *** Array.prototype.sort with a comparison function *)

Section Sort.

Variable A : Type.

(** [comparefn a b] is negative when [a] goes first, positive when [b]
    does. The sort is stable: elements that compare equal keep their
    order. Engines differ in the algorithm they run; for a comparison
    function that orders by one numeric key, as here, a stable sort has
    one possible result, and insertion computes it. *)
Variable comparefn : A -> A -> Z.

Fixpoint insert (x : A) (l : list A) : list A :=
  match l with
  | [] => [x]
  | y :: l' => if comparefn x y <=? 0 then x :: l else y :: insert x l'
  end.

Fixpoint sort (l : list A) : list A :=
  match l with
  | [] => []
  | x :: l' => insert x (sort l')
  end.

End Sort.
Arguments insert {A} comparefn x l.
Arguments sort {A} comparefn l.

(** Object.entries: the own properties whose key is an array index first,
    by increasing index, then the others in creation order. *)
Definition is_index {V : Type} (p : string * V) : bool :=
  match array_index (fst p) with Some _ => true | None => false end.

Definition index_of {V : Type} (p : string * V) : Z :=
  match array_index (fst p) with Some n => Z.of_N n | None => 0 end.

Definition entries {V : Type} (o : object V) : list (string * V) :=
  sort (fun p q => index_of p - index_of q) (filter is_index o)
    ++ filter (fun p => negb (is_index p)) o.

End JS.

(** ** The records of the API *)

Module Stat.

Record StatData : Type := {
  temps : option JS.number;
  nom : option string;
  drapeau : option string;
  temps_actuel : option string
}.

Record t : Type := {
  data : StatData;
  id : string;
  type : string;
  user_id : JS.number
}.

End Stat.

Abbreviation Stat := Stat.t.

Record CountryCount : Type := {
  name : string;
  count : nat;
  percentage : string
}.

(** ** Abrupt completion *)

(** The only exception the derived computations can raise. *)
Inductive exn : Type := TypeError.

Inductive completion (A : Type) : Type :=
  | Normal (a : A)
  | Throw (e : exn).
Arguments Normal {A} a.
Arguments Throw {A} e.

Definition bind {A B : Type} (c : completion A) (k : A -> completion B)
  : completion B :=
  match c with
  | Normal a => k a
  | Throw e => Throw e
  end.

Notation "x <- c ;; k" := (bind c (fun x => k))
  (at level 61, c at next level, right associativity).

(** [array.reduce(callback, init)] with a callback that may throw. *)
Fixpoint reduce {A B : Type} (callback : B -> A -> completion B)
  (array : list A) (init : B) : completion B :=
  match array with
  | [] => Normal init
  | x :: rest => acc <- callback init x ;; reduce callback rest acc
  end.

(** ** The component *)

Module App.

(** The seven state variables of the component. *)
Record State : Type := {
  userId : string;
  type : string;
  drapeau : string;
  filteredStats : list Stat;
  allStats : list Stat;
  loading : bool;
  error : option string
}.

Definition initial : State :=
  {| userId := ""; type := ""; drapeau := ""; filteredStats := [];
     allStats := []; loading := true; error := None |}.

Definition setUserId (v : string) (st : State) : State :=
  {| userId := v; type := type st; drapeau := drapeau st;
     filteredStats := filteredStats st; allStats := allStats st;
     loading := loading st; error := error st |}.

Definition setType (v : string) (st : State) : State :=
  {| userId := userId st; type := v; drapeau := drapeau st;
     filteredStats := filteredStats st; allStats := allStats st;
     loading := loading st; error := error st |}.

Definition setDrapeau (v : string) (st : State) : State :=
  {| userId := userId st; type := type st; drapeau := v;
     filteredStats := filteredStats st; allStats := allStats st;
     loading := loading st; error := error st |}.

Definition setFilteredStats (v : list Stat) (st : State) : State :=
  {| userId := userId st; type := type st; drapeau := drapeau st;
     filteredStats := v; allStats := allStats st;
     loading := loading st; error := error st |}.

Definition setAllStats (v : list Stat) (st : State) : State :=
  {| userId := userId st; type := type st; drapeau := drapeau st;
     filteredStats := filteredStats st; allStats := v;
     loading := loading st; error := error st |}.

Definition setLoading (v : bool) (st : State) : State :=
  {| userId := userId st; type := type st; drapeau := drapeau st;
     filteredStats := filteredStats st; allStats := allStats st;
     loading := v; error := error st |}.

Definition setError (v : option string) (st : State) : State :=
  {| userId := userId st; type := type st; drapeau := drapeau st;
     filteredStats := filteredStats st; allStats := allStats st;
     loading := loading st; error := v |}.

(** *** Searching *)

Definition handleSearch (st : State) : State :=
  let filtered := allStats st in
  let filtered :=
    if JS.truthy (userId st)
    then filter (fun stat =>
                   JS.strict_eq (Stat.user_id stat) (JS.parseInt (userId st)))
                filtered
    else filtered in
  let filtered :=
    if JS.truthy (type st)
    then filter (fun stat => String.eqb (Stat.type stat) (type st)) filtered
    else filtered in
  let filtered :=
    if JS.truthy (drapeau st)
    then filter (fun stat =>
                   JS.opt_strict_eq (Stat.drapeau (Stat.data stat)) (drapeau st))
                filtered
    else filtered in
  setFilteredStats filtered st.

Definition handleReset (st : State) : State :=
  setFilteredStats [] (setDrapeau "" (setType "" (setUserId "" st))).

(** *** Fetching *)

(** What a [catch] clause can receive: an Error object with its message,
    or some other value. *)
Inductive thrown : Type :=
  | Error (message : string)
  | NotAnError.

(** A response: its status code, and what reading its body as JSON gives
    (the [data] field of the envelope, or a rejection). *)
Record Response : Type := {
  status : N;
  json : thrown + list Stat
}.

(** [response.ok]: the status is in the range 200 to 299. *)
Definition ok (response : Response) : bool :=
  ((200 <=? status response) && (status response <=? 299))%N.

(** How the promise returned by [fetch] settles. *)
Inductive outcome : Type :=
  | Rejected (err : thrown)
  | Fulfilled (response : Response).

Inductive effect : Type :=
  | Fetch (url : string)
  | ConsoleError (label : string) (err : thrown).

Definition endpoint : string :=
  "https://serrata-stats.super-sympa.fr/api/events/list".

(** [fetchData] up to its first [await]: the two state updates and the
    request. *)
Definition fetchData_request (st : State) : State * list effect :=
  (setError None (setLoading true st), [Fetch endpoint]).

(** The effect run when the component is mounted. *)
Definition mount : State * list effect := fetchData_request initial.

(** The rest of the [try] block, once the request has settled. *)
Definition fetchData_try (o : outcome) : thrown + list Stat :=
  match o with
  | Rejected err => inl err
  | Fulfilled response =>
      if negb (ok response)
      then inl (Error ("Erreur HTTP: " ++ JS.decimal (status response)))
      else json response
  end.

(** [fetchData] after the request has settled: [try], [catch], [finally]. *)
Definition fetchData_settle (o : outcome) (st : State) : State * list effect :=
  match fetchData_try o with
  | inr data => (setLoading false (setAllStats data st), [])
  | inl err =>
      let message :=
        match err with
        | Error m => m
        | NotAnError => "Une erreur est survenue"
        end in
      (setLoading false (setError (Some message) st),
       [ConsoleError "Erreur lors du chargement des données:" err])
  end.

Definition handleRefresh (st : State) : State * list effect :=
  let '(st', effects) := fetchData_request st in
  (setFilteredStats [] st', effects).

(** *** Grouping and ranking *)

(** [stat.data.drapeau || "Tous drapeaux"]: a missing flag and the empty
    flag both give the label. *)
Definition flagName (stat : Stat) : string :=
  match Stat.drapeau (Stat.data stat) with
  | Some d => if JS.truthy d then d else "Tous drapeaux"
  | None => "Tous drapeaux"
  end.

(** The callback of the [reduce]: the bucket is created when reading
    [acc[flagName]] finds nothing, then the record is pushed on what
    [acc[flagName]] holds; a value found on the prototype has no [push]. *)
Definition group (acc : JS.object (list Stat)) (stat : Stat)
  : completion (JS.object (list Stat)) :=
  let acc :=
    match JS.get acc (flagName stat) with
    | JS.Undefined => JS.set acc (flagName stat) []
    | _ => acc
    end in
  match JS.get acc (flagName stat) with
  | JS.Own stats => Normal (JS.set acc (flagName stat) (stats ++ [stat])%list)
  | _ => Throw TypeError
  end.

Definition getStatsByFlag (st : State) : completion (JS.object (list Stat)) :=
  reduce group (filteredStats st) [].

Section Ranking.

Variable Number_toString : JS.number -> string.

Definition getCountriesByCount (st : State) : completion (list CountryCount) :=
  flagCounts <- getStatsByFlag st ;;
  let total := List.length (filteredStats st) in
  Normal
    (JS.sort (fun a b => Z.of_nat (count b) - Z.of_nat (count a))
       (map (fun '(flagName, stats) =>
               {| name := flagName;
                  count := List.length stats;
                  percentage :=
                    if (0 <? total)%nat
                    then JS.toFixed Number_toString
                           (JS.mul (JS.div (JS.of_nat (List.length stats))
                                           (JS.of_nat total))
                                   (JS.of_Z 100)) 1 ++ "%"
                    else "0%" |})
            (JS.entries flagCounts))).

(** *** Rendering *)

Inductive view : Type :=
  | LoadingView
  | ErrorView (message : string)
  | ResultsView (loaded : nat) (results : nat) (ranking : list CountryCount).

Definition render (st : State) : completion view :=
  countriesByCount <- getCountriesByCount st ;;
  if loading st then Normal LoadingView
  else
    match error st with
    | Some message =>
        if JS.truthy message then Normal (ErrorView message)
        else Normal (ResultsView (List.length (allStats st))
                       (List.length (filteredStats st))
                       (if (0 <? List.length (filteredStats st))%nat
                        then countriesByCount else []))
    | None =>
        Normal (ResultsView (List.length (allStats st))
                  (List.length (filteredStats st))
                  (if (0 <? List.length (filteredStats st))%nat
                   then countriesByCount else []))
    end.

End Ranking.

(** *** Events *)

Inductive event : Type :=
  | ChangeUserId (value : string)
  | ChangeType (value : string)
  | ClickSearch
  | ClickReset
  | ClickRefresh
  | Settle (o : outcome).

Definition dispatch (ev : event) (st : State) : State * list effect :=
  match ev with
  | ChangeUserId value => (setUserId value st, [])
  | ChangeType value => (setType value st, [])
  | ClickSearch => (handleSearch st, [])
  | ClickReset => (handleReset st, [])
  | ClickRefresh => handleRefresh st
  | Settle o => fetchData_settle o st
  end.

(** The buttons each view offers. *)
Definition buttons (v : view) : list event :=
  match v with
  | LoadingView => []
  | ErrorView _ => [ClickRefresh]
  | ResultsView _ _ _ => [ClickRefresh; ClickSearch; ClickReset]
  end.

Fixpoint run (evs : list event) (st : State) : State * list effect :=
  match evs with
  | [] => (st, [])
  | ev :: rest =>
      let '(st1, e1) := dispatch ev st in
      let '(st2, e2) := run rest st1 in
      (st2, (e1 ++ e2)%list)
  end.

End App.

(** ** The mounted component and its events *)

Module Session.
Import App.

(** What each view lets the user do: nothing while loading, the retry in
    the error view, the two fields and the three buttons in the results
    view. *)
Definition offered (v : view) (ev : event) : bool :=
  match v, ev with
  | ErrorView _, ClickRefresh => true
  | ResultsView _ _ _, (ChangeUserId _ | ChangeType _ | ClickSearch
                        | ClickReset | ClickRefresh) => true
  | _, _ => false
  end.

Definition is_fetch (e : effect) : bool :=
  match e with
  | Fetch _ => true
  | ConsoleError _ _ => false
  end.

(** The mounted component: its state and the number of requests that have
    not settled yet. *)
Record component : Type := {
  state : State;
  pending : nat
}.

Definition mounted : component :=
  {| state := fst mount;
     pending := List.length (filter is_fetch (snd mount)) |}.

Section Session.

Variable Number_toString : JS.number -> string.

(** One event: a request settles, if one is pending; or the user acts on
    a control that the rendered view offers. Nothing is offered once
    rendering has thrown. *)
Definition step (c : component) (ev : event) : option component :=
  match ev with
  | Settle o =>
      match pending c with
      | O => None
      | S n =>
          Some {| state := fst (fetchData_settle o (state c)); pending := n |}
      end
  | _ =>
      match render Number_toString (state c) with
      | Normal v =>
          if offered v ev
          then Some {| state := fst (dispatch ev (state c));
                       pending :=
                         pending c
                         + List.length (filter is_fetch
                                          (snd (dispatch ev (state c)))) |}
          else None
      | Throw _ => None
      end
  end.

Fixpoint steps (c : component) (evs : list event) : option component :=
  match evs with
  | [] => Some c
  | ev :: rest =>
      match step c ev with
      | Some c' => steps c' rest
      | None => None
      end
  end.

End Session.

End Session.

(** ** The identifier field *)

Module Field.
Import App.

(** The field of the identifier is an input of type number: the value it
    hands to [onChange] is the text it holds when that text is a valid
    floating-point number (an optional "-", digits and/or a point followed
    by digits, then optionally "e" or "E", an optional sign and digits),
    and the empty string otherwise. *)
Fixpoint skip_digits (s : string) : string :=
  match s with
  | String c r => if JS.is_digit c then skip_digits r else s
  | EmptyString => s
  end.

Definition starts_with_digit (s : string) : bool :=
  match s with
  | String c _ => JS.is_digit c
  | EmptyString => false
  end.

(** A point followed by digits: what follows them. *)
Definition fraction (s : string) : option string :=
  match s with
  | String "." r => if starts_with_digit r then Some (skip_digits r) else None
  | _ => None
  end.

(** Digits, a fraction, or both in this order: what follows them. *)
Definition mantissa (s : string) : option string :=
  if starts_with_digit s
  then match fraction (skip_digits s) with
       | Some r => Some r
       | None => Some (skip_digits s)
       end
  else fraction s.

(** "e" or "E", an optional sign, digits: what follows them. *)
Definition exponent (s : string) : option string :=
  match s with
  | String c r =>
      if Ascii.eqb c "e" || Ascii.eqb c "E"
      then let r := match r with
                    | String "-" r' => r'
                    | String "+" r' => r'
                    | _ => r
                    end in
           if starts_with_digit r then Some (skip_digits r) else None
      else None
  | EmptyString => None
  end.

Definition valid_floating_point_number (s : string) : bool :=
  let s := match s with
           | String "-" r => r
           | _ => s
           end in
  match mantissa s with
  | Some EmptyString => true
  | Some r =>
      match exponent r with
      | Some EmptyString => true
      | _ => false
      end
  | None => false
  end.

(** The value of the field when it holds [text]. *)
Definition number_value (text : string) : string :=
  if valid_floating_point_number text then text else "".


End Field.

(** * Vocabulary of the statements *)

Module Vocabulary.
Import App.

(** The three tests of [handleSearch] in one predicate: a criterion that
    is the empty string accepts every record. *)
Definition satisfies (st : State) (stat : Stat) : bool :=
  (negb (JS.truthy (userId st))
   || JS.strict_eq (Stat.user_id stat) (JS.parseInt (userId st)))
  && (negb (JS.truthy (type st)) || String.eqb (Stat.type stat) (type st))
  && (negb (JS.truthy (drapeau st))
      || JS.opt_strict_eq (Stat.drapeau (Stat.data stat)) (drapeau st)).

(** The events that neither start nor settle a request. *)
Definition local (ev : event) : bool :=
  match ev with
  | ClickRefresh | Settle _ => false
  | _ => true
  end.

(** The state right after the records [stats] are loaded, no search made
    yet, with the criteria [u], [t] and [d] typed in. *)
Definition fresh (stats : list Stat) (u t d : string) : State :=
  setDrapeau d (setType t (setUserId u (setLoading false (setAllStats stats initial)))).

(** A record with the flag [flag], the user [u] and the type [t]. *)
Definition record (flag : option string) (u : Z) (t : string) : Stat :=
  {| Stat.data := {| Stat.temps := None; Stat.nom := None;
                     Stat.drapeau := flag; Stat.temps_actuel := None |};
     Stat.id := "e"; Stat.type := t; Stat.user_id := JS.of_Z u |}.

Definition three_records : list Stat :=
  [ record (Some "FR") 5 "erreur"; record (Some "FR") 6 "passer";
    record (Some "DE") 5 "indice" ]%string.

Definition st_5_erreur : State := fresh three_records "5" "erreur" "".

Definition st_loaded : State := fresh three_records "" "" "".

(** A response with the status 500. *)
Definition response_500 : Response :=
  {| status := 500; json := inr [] |}.

(** One record whose flag is the name of a property every object
    inherits. *)
Definition st_constructor : State :=
  fresh [record (Some "constructor") 5 "erreur"] "" "" "".

(** One record with no flag. *)
Definition st_no_flag : State := fresh [record None 5 "erreur"] "" "" "".

(** Two records with no flag around one with a flag, already searched. *)
Definition st_mixed : State :=
  handleSearch
    (fresh [record None 5 "erreur"; record (Some "FR") 6 "passer";
            record None 7 "indice"] "" "" "").

(** The label of the bucket of the records that have no flag. *)
Definition no_flag_label : string := "Tous drapeaux".

(** The number of records held by the buckets of an object. *)
Definition sizes (o : JS.object (list Stat)) : nat :=
  list_sum (map (fun p => List.length (snd p)) o).

(** The record [stat] is in the bucket that the object holds under the
    flag name of [stat]. *)
Definition bucketed (o : JS.object (list Stat)) (stat : Stat) : Prop :=
  exists bucket, JS.own o (flagName stat) = Some bucket /\ In stat bucket.

(** The invariants of the accumulator, carried along the [reduce]. *)
Record grouped (processed : list Stat) (acc : JS.object (list Stat)) : Prop := {
  grouped_sizes : sizes acc = List.length processed;
  grouped_keys : NoDup (map fst acc);
  grouped_nonempty : Forall (fun p => snd p <> []) acc;
  grouped_own : Forall (fun k => JS.inherited k = false) (map fst acc);
  grouped_all : forall s, In s processed -> bucketed acc s
}.

(** The entry of the ranking made from one bucket, as [getCountriesByCount]
    builds it when the total is positive. *)
Definition entry_of (Number_toString : JS.number -> string) (total : nat)
  (p : string * list Stat) : CountryCount :=
  {| name := fst p;
     count := List.length (snd p);
     percentage :=
       (JS.toFixed Number_toString
          (JS.mul (JS.div (JS.of_nat (List.length (snd p))) (JS.of_nat total))
                  (JS.of_Z 100)) 1 ++ "%")%string |}.

(** A percentage with one decimal: digits, a point, one digit and "%".
    [fraction_percent] reads what follows the first digit. *)
Fixpoint fraction_percent (s : string) : bool :=
  match s with
  | EmptyString => false
  | String c r =>
      if Ascii.eqb c "." then
        match r with
        | String d (String p EmptyString) => JS.is_digit d && Ascii.eqb p "%"
        | _ => false
        end
      else JS.is_digit c && fraction_percent r
  end.

Definition one_decimal_percent (s : string) : bool :=
  match s with
  | String c r => JS.is_digit c && fraction_percent r
  | EmptyString => false
  end.

(** The sum of the counts of a ranking. *)
Definition total_count (l : list CountryCount) : nat :=
  list_sum (map count l).

(** A comparison function that puts larger keys first, and the order it
    gives: [b] may follow [a]. *)
Definition descending {A : Type} (key : A -> nat) (a b : A) : Z :=
  Z.of_nat (key b) - Z.of_nat (key a).

Definition follows {A : Type} (key : A -> nat) (a b : A) : Prop :=
  (key b <= key a)%nat.

End Vocabulary.

Module Terms.
Import App Vocabulary Session.

(** The distinct names of a list, each at the place of its first
    occurrence. *)
Fixpoint first_occurrences (l : list string) : list string :=
  match l with
  | [] => []
  | k :: l' =>
      k :: filter (fun k' => negb (String.eqb k k')) (first_occurrences l')
  end.

(** The records of a list that go under the flag name [k], in order. *)
Definition flagged (k : string) (l : list Stat) : list Stat :=
  filter (fun s => String.eqb (flagName s) k) l.

(** The accumulator holds the records [processed]: its keys in order, and
    under each key its bucket. *)
Definition groups_exactly (processed : list Stat)
  (acc : JS.object (list Stat)) : Prop :=
  map fst acc = first_occurrences (map flagName processed)
  /\ forall k, JS.own acc k
               = match flagged k processed with
                 | [] => None
                 | b => Some b
                 end.

(** A record with no flag, with the empty flag, or whose flag is the label
    itself. *)
Definition no_real_flag (stat : Stat) : bool :=
  match Stat.drapeau (Stat.data stat) with
  | None => true
  | Some d => String.eqb d "" || String.eqb d no_flag_label
  end.

(** The message that the [catch] clause shows for what it caught. *)
Definition message_of (err : thrown) : string :=
  match err with
  | Error m => m
  | NotAnError => "Une erreur est survenue"
  end.

(** Either no request is pending and nothing loads, or one is, the
    component loads, shows no error and holds no search result. *)
Definition settled_or_loading (c : component) : Prop :=
  if loading (state c)
  then pending c = 1%nat /\ error (state c) = None
       /\ filteredStats (state c) = []
  else pending c = 0%nat.

(** The text after the digits of an identifier starts with no digit and
    no x, so that [parseInt] reads the digits in radix 10 and stops. *)
Definition stops_digits (rest : string) : Prop :=
  match rest with
  | String c _ => JS.is_digit c = false /\ c <> "x"%char /\ c <> "X"%char
  | EmptyString => True
  end.

(** Two flags with two records each, already searched. *)
Definition st_ties : State :=
  handleSearch
    (fresh [record (Some "DE") 1 "erreur"; record (Some "FR") 2 "passer";
            record (Some "DE") 3 "indice"; record (Some "FR") 4 "erreur"]
       "" "" "").

(** Two records with the same flag, already searched. *)
Definition st_two_FR : State :=
  handleSearch
    (fresh [record (Some "FR") 1 "erreur"; record (Some "FR") 2 "passer"]
       "" "" "").

Definition response_200 (stats : list Stat) : Response :=
  {| status := 200; json := inr stats |}.

(** The records are loaded, then user 5 is searched. *)
Definition session_search : list event :=
  [ Settle (Fulfilled (response_200 three_records)); ChangeUserId "5";
    ClickSearch ].

(** The same, then a refresh that has not settled yet. *)
Definition session_refresh : list event :=
  (session_search ++ [ClickRefresh])%list.

End Terms.

(** * Properties *)

Local Open Scope list_scope.

(** ** Binary64 arithmetic *)

Module FloatFacts.

Lemma digits2_pos_bounds (p : positive) :
  2 ^ (Z.pos (digits2_pos p) - 1) <= Z.pos p < 2 ^ Z.pos (digits2_pos p).
Proof.
  induction p as [p IH|p IH|]; simpl digits2_pos.
  - rewrite Pos2Z.inj_succ. replace (Z.succ (Z.pos (digits2_pos p)) - 1) with (Z.succ (Z.pos (digits2_pos p) - 1)) by lia.
    rewrite !Z.pow_succ_r by lia. lia.
  - rewrite Pos2Z.inj_succ. replace (Z.succ (Z.pos (digits2_pos p)) - 1) with (Z.succ (Z.pos (digits2_pos p) - 1)) by lia.
    rewrite !Z.pow_succ_r by lia. lia.
  - simpl. lia.
Qed.

Lemma Zdigits2_nonneg (m : Z) : 0 <= Zdigits2 m.
Proof. destruct m; simpl; lia. Qed.

Lemma Zdigits2_lt (m : Z) : 0 <= m -> m < 2 ^ Zdigits2 m.
Proof.
  destruct m as [|p|p]; simpl; intro H; try lia.
  apply digits2_pos_bounds.
Qed.

Lemma Zdigits2_ge (m : Z) : 0 < m -> 2 ^ (Zdigits2 m - 1) <= m.
Proof.
  destruct m as [|p|p]; simpl; intro H; try lia.
  apply digits2_pos_bounds.
Qed.

Lemma Zdigits2_le (m d : Z) : 0 <= m -> 0 <= d -> m < 2 ^ d -> Zdigits2 m <= d.
Proof.
  intros Hm Hd Hlt.
  destruct (Z.eq_dec m 0) as [->|Hne]; [simpl; lia|].
  pose proof (Zdigits2_ge m ltac:(lia)) as Hge.
  pose proof (Zdigits2_nonneg m).
  destruct (Z.le_gt_cases (Zdigits2 m) d) as [|Hgt]; [assumption|].
  assert (2 ^ d <= 2 ^ (Zdigits2 m - 1)) by (apply Z.pow_le_mono_r; lia).
  lia.
Qed.

Lemma Zdigits2_gt (m d : Z) : 0 <= d -> 2 ^ d <= m -> d < Zdigits2 m.
Proof.
  intros Hd Hle.
  assert (0 < 2 ^ d) by (apply Z.pow_pos_nonneg; lia).
  pose proof (Zdigits2_lt m ltac:(lia)) as Hlt.
  pose proof (Zdigits2_nonneg m).
  destruct (Z.lt_ge_cases d (Zdigits2 m)) as [|Hge]; [assumption|].
  assert (2 ^ Zdigits2 m <= 2 ^ d) by (apply Z.pow_le_mono_r; lia).
  lia.
Qed.

Lemma shr_1_m (mrs : shr_record) :
  0 <= shr_m mrs -> shr_m (shr_1 mrs) = shr_m mrs / 2.
Proof.
  destruct mrs as [m r s]. simpl. intro Hm.
  destruct m as [|[p|p|]|p]; simpl; try lia; try reflexivity.
  - rewrite Pos2Z.inj_xI. apply (Z.div_unique _ _ _ 1); lia.
  - rewrite Pos2Z.inj_xO. apply (Z.div_unique _ _ _ 0); lia.
Qed.

Lemma iter_shr_1_m (p : positive) (mrs : shr_record) :
  0 <= shr_m mrs ->
  shr_m (iter_pos shr_1 p mrs) = shr_m mrs / 2 ^ Z.pos p.
Proof.
  revert mrs. induction p as [p IH|p IH|]; intros mrs Hm; simpl iter_pos.
  - assert (H1 : 0 <= shr_m (shr_1 mrs)) by (rewrite shr_1_m by assumption; apply Z.div_pos; lia).
    assert (H2 : 0 <= shr_m (iter_pos shr_1 p (shr_1 mrs))) by (rewrite IH by assumption; apply Z.div_pos; [lia|apply Z.pow_pos_nonneg; lia]).
    rewrite IH, IH, shr_1_m by assumption.
    rewrite !Z.div_div by (try apply Z.pow_pos_nonneg; lia).
    f_equal. rewrite Pos2Z.inj_xI.
    replace (2 * Z.pos p + 1) with (1 + Z.pos p + Z.pos p) by lia.
    rewrite !Z.pow_add_r by lia. lia.
  - assert (H2 : 0 <= shr_m (iter_pos shr_1 p mrs)) by (rewrite IH by assumption; apply Z.div_pos; [lia|apply Z.pow_pos_nonneg; lia]).
    rewrite IH, IH by assumption.
    rewrite !Z.div_div by (try apply Z.pow_pos_nonneg; lia).
    f_equal. rewrite <- Z.pow_add_r by lia. f_equal. lia.
  - now rewrite shr_1_m.
Qed.

Lemma fexp_eq (e : Z) : fexp 53 1024 e = Z.max (e - 53) (-1074).
Proof. reflexivity. Qed.

Lemma shr_record_of_loc_m (m : Z) (l : location) :
  shr_m (shr_record_of_loc m l) = m.
Proof. destruct l as [|[]]; reflexivity. Qed.

Lemma shr_fexp_spec (m e : Z) (l : location) :
  0 <= m ->
  snd (shr_fexp 53 1024 m e l) = Z.max e (Z.max (Zdigits2 m + e - 53) (-1074))
  /\ shr_m (fst (shr_fexp 53 1024 m e l))
     = m / 2 ^ (snd (shr_fexp 53 1024 m e l) - e).
Proof.
  intro Hm. unfold shr_fexp, shr. rewrite fexp_eq.
  destruct (Z.max (Zdigits2 m + e - 53) (-1074) - e) as [|p|p] eqn:En; simpl fst; simpl snd.
  - split; [lia|]. rewrite Z.sub_diag, Z.pow_0_r, Z.div_1_r. apply shr_record_of_loc_m.
  - split; [lia|]. rewrite iter_shr_1_m by (rewrite shr_record_of_loc_m; assumption).
    rewrite shr_record_of_loc_m. f_equal. f_equal. lia.
  - split; [lia|]. rewrite Z.sub_diag, Z.pow_0_r, Z.div_1_r. apply shr_record_of_loc_m.
Qed.

Lemma round_nearest_even_bounds (m : Z) (l : location) :
  m <= round_nearest_even m l <= m + 1.
Proof.
  destruct l as [|[]]; simpl; try lia. destruct (Z.even m); lia.
Qed.

(** Division by a power of two of a number below a power of two. *)
Lemma div_pow2_lt (m d k b : Z) :
  0 <= m -> m < 2 ^ d -> 0 <= k -> 0 <= b -> d <= b + k -> m / 2 ^ k < 2 ^ b.
Proof.
  intros Hm Hlt Hk Hb Hd.
  assert (0 < 2 ^ k) by (apply Z.pow_pos_nonneg; lia).
  apply Z.div_lt_upper_bound; [assumption|].
  rewrite <- Z.pow_add_r by lia.
  destruct (Z.le_gt_cases 0 d).
  - assert (2 ^ d <= 2 ^ (k + b)) by (apply Z.pow_le_mono_r; lia). lia.
  - rewrite Z.pow_neg_r in Hlt by lia. lia.
Qed.

Lemma Zdigits2_div_pow2 (m k : Z) :
  0 <= m -> 0 <= k -> Zdigits2 (m / 2 ^ k) <= Z.max 0 (Zdigits2 m - k).
Proof.
  intros Hm Hk.
  assert (0 < 2 ^ k) by (apply Z.pow_pos_nonneg; lia).
  apply Zdigits2_le; [apply Z.div_pos; lia | lia |].
  apply (div_pow2_lt m (Zdigits2 m)); try lia.
  now apply Zdigits2_lt.
Qed.

Lemma Zdigits2_succ (m n : Z) :
  0 <= m -> m <= n <= m + 1 -> Zdigits2 n <= Zdigits2 m + 1.
Proof.
  intros Hm Hn. pose proof (Zdigits2_nonneg m).
  apply Zdigits2_le; try lia.
  pose proof (Zdigits2_lt m Hm).
  rewrite Z.pow_add_r by lia. lia.
Qed.

(** What rounding to binary64 can give, for a non-negative mantissa. *)
Lemma binary_round_aux_bounds (sx : bool) (mx ex : Z) (lx : location) :
  0 <= mx ->
  let E := Z.max ex (Z.max (Zdigits2 mx + ex - 52) (-1074)) in
  match binary_round_aux 53 1024 sx mx ex lx with
  | S754_zero s => s = sx
  | S754_finite s m e => s = sx /\ Z.pos m < 2 ^ 53 /\ e <= E
  | S754_infinity _ => 971 < E
  | S754_nan => False
  end.
Proof.
  intros Hmx E. unfold binary_round_aux.
  destruct (shr_fexp_spec mx ex lx Hmx) as [He1 Hm1].
  destruct (shr_fexp 53 1024 mx ex lx) as [mrs1 e1]. simpl fst in *. simpl snd in *.
  set (m1 := shr_m mrs1) in *.
  assert (Hk : 0 <= e1 - ex) by lia.
  assert (H2k : 0 < 2 ^ (e1 - ex)) by (apply Z.pow_pos_nonneg; lia).
  assert (Hm1pos : 0 <= m1) by (rewrite Hm1; apply Z.div_pos; lia).
  pose proof (round_nearest_even_bounds m1 (loc_of_shr_record mrs1)) as Hr.
  set (m2 := round_nearest_even m1 (loc_of_shr_record mrs1)) in *.
  assert (Hm2pos : 0 <= m2) by lia.
  assert (Hd1 : Zdigits2 m1 <= Z.max 0 (Zdigits2 mx - (e1 - ex)))
    by (rewrite Hm1; now apply Zdigits2_div_pow2).
  pose proof (Zdigits2_succ m1 m2 Hm1pos Hr) as Hd2.
  destruct (shr_fexp_spec m2 e1 loc_Exact Hm2pos) as [He2 Hm2].
  destruct (shr_fexp 53 1024 m2 e1 loc_Exact) as [mrs2 e2]. simpl fst in *. simpl snd in *.
  assert (HE : e2 <= E) by (unfold E; lia).
  assert (Hm3 : 0 <= shr_m mrs2 < 2 ^ 53).
  { rewrite Hm2. split.
    - apply Z.div_pos; [lia | apply Z.pow_pos_nonneg; lia].
    - apply (div_pow2_lt m2 (Zdigits2 m2)); try lia. now apply Zdigits2_lt. }
  destruct (shr_m mrs2) as [|m|m]; try lia; [reflexivity|].
  change (1024 - 53) with 971.
  destruct (e2 <=? 971) eqn:Ele.
  - repeat split; lia.
  - apply Z.leb_gt in Ele. lia.
Qed.

Lemma digits2_pos_iter_xO (p d : positive) :
  digits2_pos (Pos.iter xO p d) = (digits2_pos p + d)%positive.
Proof.
  induction d as [|d IH] using Pos.peano_ind.
  - simpl. lia.
  - rewrite Pos.iter_succ. simpl. rewrite IH. lia.
Qed.

(** Rounding leaves a normal binary64 value as it is. *)
Lemma binary_round_aux_canonical (s : bool) (m : positive) (e : Z) :
  digits2_pos m = 53%positive -> -1074 <= e <= 971 ->
  binary_round_aux 53 1024 s (Z.pos m) e loc_Exact = S754_finite s m e.
Proof.
  intros Hd He.
  assert (Hshr : forall l, shr_fexp 53 1024 (Z.pos m) e l
                           = (shr_record_of_loc (Z.pos m) l, e)).
  { intro l. unfold shr_fexp. simpl Zdigits2. rewrite Hd, fexp_eq.
    replace (Z.max (53 + e - 53) (-1074) - e) with 0 by lia. reflexivity. }
  unfold binary_round_aux. rewrite Hshr. simpl. rewrite Hshr. simpl.
  change (1024 - 53) with 971.
  destruct (e <=? 971) eqn:E; [reflexivity|]. apply Z.leb_gt in E. lia.
Qed.

Lemma iter_xO_pow2 (p d : positive) :
  Z.pos (Pos.iter xO p d) = Z.pos p * 2 ^ Z.pos d.
Proof.
  induction d as [|d IH] using Pos.peano_ind.
  - simpl. lia.
  - rewrite Pos.iter_succ, Pos2Z.inj_xO, IH, Pos2Z.inj_succ, Z.pow_succ_r by lia.
    lia.
Qed.

(** The binary64 value of a non-zero integer of magnitude below 2^53 is
    exact: its sign, the magnitude shifted to 53 bits, and the exponent
    that undoes the shift. *)
Lemma binary_round_small (s : bool) (p : positive) :
  Z.pos p < 2 ^ 53 ->
  exists m,
    binary_round 53 1024 s p 0 = S754_finite s m (Z.pos (digits2_pos p) - 53)
    /\ digits2_pos m = 53%positive
    /\ Z.pos m = Z.pos p * 2 ^ (53 - Z.pos (digits2_pos p)).
Proof.
  intro Hp.
  assert (Hd : Z.pos (digits2_pos p) <= 53)
    by (apply (Zdigits2_le (Z.pos p)); lia).
  unfold binary_round, shl_align. rewrite fexp_eq.
  replace (Z.max (Z.pos (digits2_pos p) + 0 - 53) (-1074) - 0)
    with (Z.pos (digits2_pos p) - 53) by lia.
  destruct (Z.pos (digits2_pos p) - 53) as [|d|d] eqn:Ed; try lia.
  - exists p. assert (Hp53 : digits2_pos p = 53%positive) by lia.
    split; [|split; [exact Hp53|]].
    + now apply binary_round_aux_canonical; [|lia].
    + replace (53 - Z.pos (digits2_pos p)) with 0 by lia. lia.
  - exists (Pos.iter xO p d).
    assert (Hp53 : digits2_pos (Pos.iter xO p d) = 53%positive)
      by (rewrite digits2_pos_iter_xO; lia).
    split; [|split; [exact Hp53|]].
    + replace (Z.max (Z.pos (digits2_pos p) + 0 - 53) (-1074))
        with (Z.neg d) by lia.
      apply binary_round_aux_canonical; [exact Hp53 | lia].
    + rewrite iter_xO_pow2. f_equal. f_equal. lia.
Qed.

Lemma SFeqb_finite (s1 s2 : bool) (m1 m2 : positive) (e1 e2 : Z) :
  SFeqb (S754_finite s1 m1 e1) (S754_finite s2 m2 e2) = true
  <-> s1 = s2 /\ m1 = m2 /\ e1 = e2.
Proof.
  unfold SFeqb, SFcompare.
  change (Pos.compare_cont Eq m1 m2) with (Pos.compare m1 m2).
  destruct s1, s2; try (split; [discriminate | intros [H _]; discriminate]);
    destruct (Z.compare_spec e1 e2) as [He|He|He];
    try (split; [discriminate | intros (_ & _ & H); lia]);
    destruct (Pos.compare_spec m1 m2) as [Hm|Hm|Hm]; simpl;
    try (split; [discriminate | intros (_ & H & _); lia]);
    (split; [intros _; repeat split; assumption | reflexivity]).
Qed.

Lemma shifted_injective (p q mp mq : positive) :
  Z.pos q < 2 ^ 53 ->
  Z.pos mp = Z.pos p * 2 ^ (53 - Z.pos (digits2_pos p)) ->
  Z.pos mq = Z.pos q * 2 ^ (53 - Z.pos (digits2_pos q)) ->
  mp = mq -> Z.pos (digits2_pos p) - 53 = Z.pos (digits2_pos q) - 53 ->
  p = q.
Proof.
  intros Hq Hmp Hmq Hm He. subst mq.
  assert (Hd : Z.pos (digits2_pos p) = Z.pos (digits2_pos q)) by lia.
  rewrite Hmq, Hd in Hmp.
  assert (Z.pos (digits2_pos q) <= 53)
    by (apply (Zdigits2_le (Z.pos q)); lia).
  assert (0 < 2 ^ (53 - Z.pos (digits2_pos q)))
    by (apply Z.pow_pos_nonneg; lia).
  clear Hq H Hd.
  assert (Z.pos p = Z.pos q).
  { apply (Z.mul_reg_r _ _ (2 ^ (53 - Z.pos (digits2_pos q)))); lia. }
  congruence.
Qed.

(** On integers of magnitude below 2^53, strict equality of the Numbers
    is equality of the integers. *)
Lemma strict_eq_of_Z (a b : Z) :
  Z.abs a < 2 ^ 53 -> Z.abs b < 2 ^ 53 ->
  JS.strict_eq (JS.of_Z a) (JS.of_Z b) = true <-> a = b.
Proof.
  intros Ha Hb.
  unfold JS.strict_eq, JS.of_Z, JS.prec, JS.emax, binary_normalize.
  destruct a as [|p|p], b as [|q|q];
    try (destruct (binary_round_small false p) as (mp & -> & _ & Hmp); [lia|]);
    try (destruct (binary_round_small true p) as (mp & -> & _ & Hmp); [lia|]);
    try (destruct (binary_round_small false q) as (mq & -> & _ & Hmq); [lia|]);
    try (destruct (binary_round_small true q) as (mq & -> & _ & Hmq); [lia|]);
    try (split; [reflexivity | reflexivity]);
    try (split; discriminate);
    rewrite ?SFeqb_finite;
    try (split; [intros (H & _); discriminate | discriminate]).
  - split.
    + intros (_ & Hm & He). f_equal.
      apply (shifted_injective p q mp mq); trivial; lia.
    + intro H. injection H as ->. repeat split. lia.
  - split.
    + intros (_ & Hm & He). f_equal.
      apply (shifted_injective p q mp mq); trivial; lia.
    + intro H. injection H as ->. repeat split. lia.
Qed.

Lemma Zdigits2_quotient (a b da db : Z) :
  0 <= a < 2 ^ da -> 2 ^ (db - 1) <= b -> 0 <= da -> 1 <= db ->
  Zdigits2 (a / b) <= Z.max 0 (da - db + 1).
Proof.
  intros Ha Hb Hda Hdb.
  assert (Hb0 : 0 < 2 ^ (db - 1)) by (apply Z.pow_pos_nonneg; lia).
  assert (Hq : 0 <= a / b) by (apply Z.div_pos; lia).
  apply Zdigits2_le; [exact Hq | lia |].
  apply Z.div_lt_upper_bound; [lia|].
  destruct (Z.le_gt_cases 0 (da - db + 1)) as [Hc|Hc].
  - rewrite Z.max_r by lia.
    assert (2 ^ da = 2 ^ (db - 1) * 2 ^ (da - db + 1))
      by (rewrite <- Z.pow_add_r by lia; f_equal; lia).
    assert (0 < 2 ^ (da - db + 1)) by (apply Z.pow_pos_nonneg; lia).
    nia.
  - rewrite Z.max_l by lia. rewrite Z.pow_0_r.
    assert (2 ^ da <= 2 ^ (db - 1)) by (apply Z.pow_le_mono_r; lia).
    lia.
Qed.

Lemma SFdiv_core_binary_spec (mx my : positive) (ex ey : Z) :
  let e' := Z.min (Z.max (Z.pos (digits2_pos mx) + ex
                          - (Z.pos (digits2_pos my) + ey) - 53) (-1074))
                  (ex - ey) in
  exists l,
    SFdiv_core_binary 53 1024 (Z.pos mx) ex (Z.pos my) ey
    = (Z.pos mx * 2 ^ (ex - ey - e') / Z.pos my, e', l).
Proof.
  intro e'. unfold SFdiv_core_binary. simpl Zdigits2. rewrite fexp_eq.
  fold e'.
  assert (Hs : 0 <= ex - ey - e') by (unfold e'; lia).
  assert (Hm : match ex - ey - e' with
               | Z.pos _ => Z.shiftl (Z.pos mx) (ex - ey - e')
               | 0 => Z.pos mx
               | Z.neg _ => 0
               end = Z.pos mx * 2 ^ (ex - ey - e')).
  { destruct (ex - ey - e') as [|s|s] eqn:Es; try lia.
    now rewrite Z.shiftl_mul_pow2. }
  rewrite Hm. unfold Z.div.
  destruct (Z.div_eucl (Z.pos mx * 2 ^ (ex - ey - e')) (Z.pos my)) as [q r].
  now eexists.
Qed.

(** The quotient of two positive finite binary64 values. *)
Lemma SFdiv_bounds (mx my : positive) (ex ey : Z) :
  let E := Z.max (Z.pos (digits2_pos mx) + ex
                  - (Z.pos (digits2_pos my) + ey) - 51) (-1074) in
  match SFdiv 53 1024 (S754_finite false mx ex) (S754_finite false my ey) with
  | S754_zero s => s = false
  | S754_finite s m e => s = false /\ Z.pos m < 2 ^ 53 /\ e <= E
  | S754_infinity _ => 971 < E
  | S754_nan => False
  end.
Proof.
  intro E. unfold SFdiv.
  destruct (SFdiv_core_binary_spec mx my ex ey) as [l ->].
  set (e' := Z.min _ _) in *.
  set (q := Z.pos mx * 2 ^ (ex - ey - e') / Z.pos my).
  assert (Hs : 0 <= ex - ey - e') by (unfold e'; lia).
  assert (H2s : 0 < 2 ^ (ex - ey - e')) by (apply Z.pow_pos_nonneg; lia).
  assert (Hq : 0 <= q) by (apply Z.div_pos; lia).
  pose proof (digits2_pos_bounds mx) as Hx.
  pose proof (digits2_pos_bounds my) as Hy.
  assert (Hdq : Zdigits2 q
                <= Z.max 0 (Z.pos (digits2_pos mx) + (ex - ey - e')
                            - Z.pos (digits2_pos my) + 1)).
  { apply Zdigits2_quotient; try lia. split; [lia|].
    rewrite Z.pow_add_r by lia. nia. }
  pose proof (binary_round_aux_bounds (xorb false false) q e' l Hq) as Hb.
  simpl xorb in *. cbv zeta in Hb. clearbody q.
  destruct (binary_round_aux 53 1024 false q e' l) as [s|s| |s m e];
    try exact Hb.
  - unfold E, e' in *. lia.
  - destruct Hb as (Hsg & Hm & He). repeat split; trivial.
    unfold E, e' in *. lia.
Qed.

Lemma Zdigits2_mul (mx my : positive) :
  Zdigits2 (Z.pos (mx * my)) <= Z.pos (digits2_pos mx) + Z.pos (digits2_pos my).
Proof.
  pose proof (digits2_pos_bounds mx) as Hx.
  pose proof (digits2_pos_bounds my) as Hy.
  apply Zdigits2_le; try lia.
  rewrite Pos2Z.inj_mul, Z.pow_add_r by lia. nia.
Qed.

(** The product of two positive finite binary64 values. *)
Lemma SFmul_bounds (mx my : positive) (ex ey : Z) :
  let E := Z.max (ex + ey)
             (Z.max (Z.pos (digits2_pos mx) + Z.pos (digits2_pos my)
                     + ex + ey - 52) (-1074)) in
  match SFmul 53 1024 (S754_finite false mx ex) (S754_finite false my ey) with
  | S754_zero s => s = false
  | S754_finite s m e => s = false /\ Z.pos m < 2 ^ 53 /\ e <= E
  | S754_infinity _ => 971 < E
  | S754_nan => False
  end.
Proof.
  intro E. unfold SFmul.
  pose proof (Zdigits2_mul mx my) as Hd.
  pose proof (binary_round_aux_bounds (xorb false false) (Z.pos (mx * my))
                (ex + ey) loc_Exact ltac:(lia)) as Hb.
  simpl xorb in *. cbv zeta in Hb.
  destruct (binary_round_aux 53 1024 false (Z.pos (mx * my)) (ex + ey) loc_Exact)
    as [s|s| |s m e]; try exact Hb.
  - unfold E. lia.
  - destruct Hb as (Hsg & Hm & He). repeat split; trivial. unfold E. lia.
Qed.

End FloatFacts.

(** ** Searching *)

Module SearchFacts.
Import App Vocabulary.

Lemma truthy_iff (s : string) : JS.truthy s = true <-> s <> ""%string.
Proof.
  destruct s; simpl; split; intro H; congruence.
Qed.

Lemma opt_strict_eq_true (a : option string) (b : string) :
  JS.opt_strict_eq a b = true <-> a = Some b.
Proof.
  destruct a as [a|]; simpl.
  - rewrite String.eqb_eq. split; congruence.
  - split; discriminate.
Qed.

Lemma filter_filter {A : Type} (p q : A -> bool) (l : list A) :
  filter q (filter p l) = filter (fun x => p x && q x) l.
Proof.
  induction l as [|x l IH]; simpl; [reflexivity|].
  destruct (p x); simpl; [destruct (q x)|]; now rewrite IH.
Qed.

Lemma filter_all {A : Type} (l : list A) : filter (fun _ => true) l = l.
Proof. induction l as [|x l IH]; simpl; congruence. Qed.

Lemma handleSearch_filter (st : State) :
  filteredStats (handleSearch st) = filter (satisfies st) (allStats st).
Proof.
  unfold handleSearch, satisfies; simpl.
  destruct (JS.truthy (userId st)), (JS.truthy (type st)),
    (JS.truthy (drapeau st)); simpl; rewrite ?filter_filter;
    first [ symmetry; apply filter_all
          | apply filter_ext; intro;
            rewrite ?andb_true_r, ?andb_assoc; reflexivity ].
Qed.

Lemma handleSearch_In (st : State) (stat : Stat) :
  In stat (filteredStats (handleSearch st)) ->
  In stat (allStats st) /\ satisfies st stat = true.
Proof. rewrite handleSearch_filter. apply filter_In. Qed.

Lemma satisfies_criteria (st : State) (stat : Stat) :
  satisfies st stat = true ->
  (userId st <> ""%string ->
     JS.strict_eq (Stat.user_id stat) (JS.parseInt (userId st)) = true)
  /\ (type st <> ""%string -> Stat.type stat = type st)
  /\ (drapeau st <> ""%string ->
        Stat.drapeau (Stat.data stat) = Some (drapeau st)).
Proof.
  unfold satisfies. intro Hs.
  apply andb_true_iff in Hs. destruct Hs as [Hs Hd].
  apply andb_true_iff in Hs. destruct Hs as [Hu Ht].
  repeat split; intro Hne; apply truthy_iff in Hne.
  - rewrite Hne in Hu. exact Hu.
  - rewrite Hne in Ht. simpl in Ht. now apply String.eqb_eq.
  - rewrite Hne in Hd. simpl in Hd. now apply opt_strict_eq_true.
Qed.

(** C1. Whatever the loaded records and the three criteria, the result of
    a search is the loaded records filtered by the conjunction of the
    criteria that are present: it is included in the loaded records, and
    each of its records has a [user_id] strictly equal to the parsed
    identifier, a [type] equal to the type criterion and a flag equal to
    the flag criterion, for each of these criteria that is not empty.
    Where the [user_id] and the parsed identifier are integers of
    magnitude below 2^53, strict equality is equality of the integers. *)
Theorem handleSearch_sound (st : State) :
  filteredStats (handleSearch st) = filter (satisfies st) (allStats st)
  /\ incl (filteredStats (handleSearch st)) (allStats st)
  /\ (forall stat, In stat (filteredStats (handleSearch st)) ->
        (userId st <> ""%string ->
           JS.strict_eq (Stat.user_id stat) (JS.parseInt (userId st)) = true)
        /\ (type st <> ""%string -> Stat.type stat = type st)
        /\ (drapeau st <> ""%string ->
              Stat.drapeau (Stat.data stat) = Some (drapeau st)))
  /\ (forall stat a b, In stat (filteredStats (handleSearch st)) ->
        userId st <> ""%string ->
        Stat.user_id stat = JS.of_Z a -> JS.parseInt (userId st) = JS.of_Z b ->
        Z.abs a < 2 ^ 53 -> Z.abs b < 2 ^ 53 -> a = b).
Proof.
  split; [apply handleSearch_filter|]. split; [|split].
  - intros x Hx. now apply handleSearch_In in Hx.
  - intros stat Hin. apply handleSearch_In in Hin. destruct Hin as [_ Hs].
    now apply satisfies_criteria.
  - intros stat a b Hin Hne Ha Hb Hbounda Hboundb.
    apply handleSearch_In in Hin. destruct Hin as [_ Hs].
    apply satisfies_criteria in Hs. destruct Hs as [Hu _].
    specialize (Hu Hne). rewrite Ha, Hb in Hu.
    now apply FloatFacts.strict_eq_of_Z in Hu.
Qed.

(** C2. With the three criteria empty, a search returns the loaded
    records as they are. *)
Theorem handleSearch_no_criteria (st : State) :
  userId st = ""%string -> type st = ""%string -> drapeau st = ""%string ->
  filteredStats (handleSearch st) = allStats st.
Proof.
  intros Hu Ht Hd. unfold handleSearch. now rewrite Hu, Ht, Hd.
Qed.

(** A search reads the loaded records and the criteria, nothing else. *)
Lemma handleSearch_reads (st st' : State) :
  allStats st = allStats st' -> userId st = userId st' ->
  type st = type st' -> drapeau st = drapeau st' ->
  filteredStats (handleSearch st) = filteredStats (handleSearch st').
Proof.
  intros Ha Hu Ht Hd. unfold handleSearch. now rewrite Ha, Hu, Ht, Hd.
Qed.

Lemma dispatch_local_allStats (ev : event) (st : State) :
  local ev = true -> allStats (fst (dispatch ev st)) = allStats st.
Proof. destruct ev; simpl; intro H; try discriminate; reflexivity. Qed.

Lemma run_local_allStats (evs : list event) (st : State) :
  forallb local evs = true -> allStats (fst (run evs st)) = allStats st.
Proof.
  revert st. induction evs as [|ev evs IH]; intros st H; simpl in *.
  - reflexivity.
  - apply andb_true_iff in H. destruct H as [Hev Hevs].
    pose proof (dispatch_local_allStats ev st Hev) as Hd.
    destruct (dispatch ev st) as [st1 e1]. simpl in Hd.
    specialize (IH st1 Hevs).
    destruct (run evs st1) as [st2 e2]. simpl in *. congruence.
Qed.

(** C9. A search never reads the previous result: it gives the same
    records whatever [filteredStats] held, so after any sequence of
    searches, resets and edits of the criteria it gives what it gives in
    the state just loaded with the same records and the same criteria;
    and searching twice in a row changes nothing. *)
Theorem handleSearch_from_allStats (evs : list event) (st : State) :
  forallb local evs = true ->
  let st' := fst (run evs st) in
  (forall previous,
     filteredStats (handleSearch (setFilteredStats previous st'))
     = filteredStats (handleSearch st'))
  /\ filteredStats (handleSearch st')
     = filteredStats
         (handleSearch (fresh (allStats st) (userId st') (type st') (drapeau st')))
  /\ handleSearch (handleSearch st') = handleSearch st'.
Proof.
  intros Hloc st'. split; [|split].
  - intro previous. now apply handleSearch_reads.
  - apply handleSearch_reads; try reflexivity.
    unfold st'. now rewrite run_local_allStats.
  - reflexivity.
Qed.

Lemma strict_eq_NaN (x : JS.number) : JS.strict_eq x JS.NaN = false.
Proof. now destruct x. Qed.

Lemma filter_none {A : Type} (p : A -> bool) (l : list A) :
  (forall x, p x = false) -> filter p l = [].
Proof.
  intro H. induction l as [|x l IH]; simpl; [reflexivity|]. now rewrite H.
Qed.

(** In a state whose identifier is not empty, the identifier is applied:
    every record of the result has a [user_id] strictly equal to what
    [parseInt] reads in it, and when [parseInt] reads no number (NaN) the
    result is empty. *)
Lemma handleSearch_identifier_applied (st : State) :
  userId st <> ""%string ->
  (forall stat, In stat (filteredStats (handleSearch st)) ->
     JS.strict_eq (Stat.user_id stat) (JS.parseInt (userId st)) = true)
  /\ (JS.parseInt (userId st) = JS.NaN -> filteredStats (handleSearch st) = []).
Proof.
  intro Hne. split.
  - intros stat Hin. apply handleSearch_In in Hin.
    now apply (satisfies_criteria st stat).
  - intro Hnan. rewrite handleSearch_filter. apply filter_none. intro stat.
    unfold satisfies. apply truthy_iff in Hne.
    now rewrite Hne, Hnan, strict_eq_NaN.
Qed.

(** Witnesses and counterexample of the search properties. *)

Lemma handleSearch_sound_witness :
  In (record (Some "FR") 5 "erreur") (filteredStats (handleSearch st_5_erreur))
  /\ JS.strict_eq (Stat.user_id (record (Some "FR") 5 "erreur"))
       (JS.parseInt "5") = true
  /\ Stat.type (record (Some "FR") 5 "erreur") = "erreur"%string.
Proof.
  assert (Hin : In (record (Some "FR") 5 "erreur")
                   (filteredStats (handleSearch st_5_erreur)))
    by (left; reflexivity).
  split; [exact Hin|].
  destruct (handleSearch_sound st_5_erreur) as [_ [_ [H _]]].
  destruct (H _ Hin) as [Hu [Ht _]].
  split; [apply Hu | apply Ht]; discriminate.
Defined.

Lemma handleSearch_no_criteria_witness :
  filteredStats (handleSearch st_loaded) = three_records.
Proof. apply (handleSearch_no_criteria st_loaded); reflexivity. Defined.

Lemma handleSearch_from_allStats_witness :
  let st' := fst (run [ChangeUserId "5"; ClickSearch; ChangeType "erreur";
                       ClickSearch; ClickReset; ChangeUserId "6"] st_loaded) in
  filteredStats (handleSearch st')
  = filteredStats (handleSearch (fresh three_records "6" "" ""))
  /\ handleSearch (handleSearch st') = handleSearch st'.
Proof.
  intro st'.
  destruct (handleSearch_from_allStats
              [ChangeUserId "5"; ClickSearch; ChangeType "erreur";
               ClickSearch; ClickReset; ChangeUserId "6"] st_loaded)
    as [_ [H1 H2]]; [reflexivity|].
  split; [exact H1 | exact H2].
Defined.

End SearchFacts.

(** ** Fetching *)

Module FetchFacts.
Import App Vocabulary.

Section Fetch.

Variable Number_toString : JS.number -> string.

(** C8. When the request started by [fetchData] is answered with a status
    outside 200..299, the error becomes "Erreur HTTP: " followed by the
    status in decimal, the loaded records are the ones held before the
    request, the component shows the error view, whose only button is the
    retry, and the retry issues the request again. *)
Theorem fetchData_http_error (st : State) (response : Response) :
  ok response = false ->
  let st1 := fst (fetchData_request st) in
  let st2 := fst (fetchData_settle (Fulfilled response) st1) in
  let message := ("Erreur HTTP: " ++ JS.decimal (status response))%string in
  error st2 = Some message
  /\ allStats st2 = allStats st
  /\ loading st2 = false
  /\ render Number_toString st2
     = (_ <- getCountriesByCount Number_toString st2 ;;
        Normal (ErrorView message))
  /\ buttons (ErrorView message) = [ClickRefresh]
  /\ dispatch ClickRefresh st2 = handleRefresh st2
  /\ snd (handleRefresh st2) = snd (fetchData_request st2)
  /\ snd (fetchData_request st2) = [Fetch endpoint].
Proof.
  intros Hok st1 st2 message.
  assert (Hst2 : st2 = setLoading false (setError (Some message) st1)).
  { unfold st2, fetchData_settle, fetchData_try. now rewrite Hok. }
  rewrite Hst2. repeat split.
Qed.

End Fetch.

Lemma fetchData_http_error_witness :
  let st2 := fst (fetchData_settle (Fulfilled response_500)
                    (fst (fetchData_request st_loaded))) in
  error st2 = Some "Erreur HTTP: 500"%string
  /\ allStats st2 = three_records
  /\ snd (dispatch ClickRefresh st2) = [Fetch endpoint].
Proof.
  destruct (fetchData_http_error (fun _ => ""%string) st_loaded response_500)
    as (He & Ha & _ & _ & _ & Hd & Hr & Hf); [reflexivity|].
  split; [exact He|]. split; [exact Ha|].
  rewrite Hd. exact (eq_trans Hr Hf).
Defined.

End FetchFacts.

(** ** Sorting *)

Module SortFacts.
Import Vocabulary.

Section ByKey.

Variables (A : Type) (key : A -> nat).

Lemma insert_perm (cmp : A -> A -> Z) (x : A) (l : list A) :
  Permutation (JS.insert cmp x l) (x :: l).
Proof.
  induction l as [|y l IH]; simpl.
  - apply Permutation_refl.
  - destruct (cmp x y <=? 0).
    + apply Permutation_refl.
    + eapply perm_trans; [apply perm_skip, IH | apply perm_swap].
Qed.

Lemma sort_perm (cmp : A -> A -> Z) (l : list A) :
  Permutation (JS.sort cmp l) l.
Proof.
  induction l as [|x l IH]; simpl.
  - apply perm_nil.
  - eapply perm_trans; [apply insert_perm | now apply perm_skip].
Qed.

Lemma insert_hd (x y : A) (l : list A) :
  follows key y x -> HdRel (follows key) y l -> HdRel (follows key) y (JS.insert (descending key) x l).
Proof.
  intros Hyx Hl. destruct l as [|z l]; simpl.
  - now constructor.
  - destruct (descending key x z <=? 0); constructor; trivial.
    now inversion Hl.
Qed.

Lemma insert_sorted (x : A) (l : list A) :
  Sorted (follows key) l -> Sorted (follows key) (JS.insert (descending key) x l).
Proof.
  induction 1 as [|y l Hs IH Hhd]; simpl.
  - repeat constructor.
  - destruct (descending key x y <=? 0) eqn:E.
    + constructor; [now constructor|].
      constructor. unfold follows, descending in *.
      apply Z.leb_le in E. lia.
    + constructor; [exact IH|].
      apply insert_hd; [|exact Hhd].
      unfold follows, descending in *. apply Z.leb_gt in E. lia.
Qed.

Lemma sort_sorted (l : list A) : Sorted (follows key) (JS.sort (descending key) l).
Proof.
  induction l as [|x l IH]; simpl; [constructor | now apply insert_sorted].
Qed.

Lemma sorted_adjacent (l : list A) :
  Sorted (follows key) l ->
  forall i a b, nth_error l i = Some a -> nth_error l (S i) = Some b ->
  follows key a b.
Proof.
  induction 1 as [|x l Hs IH Hhd]; intros i a b Ha Hb.
  - now destruct i.
  - destruct i as [|i]; simpl in Ha, Hb.
    + injection Ha as <-. destruct l as [|y l]; [discriminate|].
      injection Hb as <-. now inversion Hhd.
    + now apply (IH i).
Qed.

End ByKey.

End SortFacts.

(** ** Grouping *)

Module GroupFacts.
Import App Vocabulary.

Lemma own_set_same {V : Type} (o : JS.object V) (k : string) (v : V) :
  JS.own (JS.set o k v) k = Some v.
Proof.
  induction o as [|[k' v'] o IH]; simpl.
  - now rewrite String.eqb_refl.
  - destruct (String.eqb k' k) eqn:E; simpl; now rewrite E.
Qed.

Lemma own_set_other {V : Type} (o : JS.object V) (k k' : string) (v : V) :
  k' <> k -> JS.own (JS.set o k v) k' = JS.own o k'.
Proof.
  intro Hne. induction o as [|[k0 v0] o IH]; simpl.
  - apply String.eqb_neq in Hne. now rewrite String.eqb_sym, Hne.
  - destruct (String.eqb k0 k) eqn:E; simpl.
    + apply String.eqb_eq in E. subst k0.
      apply not_eq_sym in Hne. apply String.eqb_neq in Hne. now rewrite Hne.
    + now rewrite IH.
Qed.

Lemma set_new {V : Type} (o : JS.object V) (k : string) (v : V) :
  JS.own o k = None -> JS.set o k v = o ++ [(k, v)].
Proof.
  induction o as [|[k' v'] o IH]; simpl; [reflexivity|].
  destruct (String.eqb k' k); [discriminate|]. intro H. now rewrite IH.
Qed.

Lemma set_own_keys {V : Type} (o : JS.object V) (k : string) (v w : V) :
  JS.own o k = Some w -> map fst (JS.set o k v) = map fst o.
Proof.
  induction o as [|[k' v'] o IH]; simpl; [discriminate|].
  destruct (String.eqb k' k); simpl; [reflexivity|].
  intro H. now rewrite IH.
Qed.

Lemma own_None {V : Type} (o : JS.object V) (k : string) :
  JS.own o k = None <-> ~ In k (map fst o).
Proof.
  induction o as [|[k' v'] o IH]; simpl; [tauto|].
  destruct (String.eqb k' k) eqn:E.
  - apply String.eqb_eq in E. split; [discriminate | tauto].
  - apply String.eqb_neq in E. tauto.
Qed.

Lemma own_In {V : Type} (o : JS.object V) (k : string) (v : V) :
  JS.own o k = Some v -> In (k, v) o.
Proof.
  induction o as [|[k' v'] o IH]; simpl; [discriminate|].
  destruct (String.eqb k' k) eqn:E.
  - apply String.eqb_eq in E. intro H. left. congruence.
  - auto.
Qed.

Lemma sizes_app (o o' : JS.object (list Stat)) :
  sizes (o ++ o') = (sizes o + sizes o')%nat.
Proof. unfold sizes. now rewrite map_app, list_sum_app. Qed.

Lemma sizes_set_own (o : JS.object (list Stat)) (k : string) (v w : list Stat) :
  JS.own o k = Some w ->
  (sizes (JS.set o k v) + List.length w = sizes o + List.length v)%nat.
Proof.
  unfold sizes. induction o as [|[k' v'] o IH]; simpl; [discriminate|].
  destruct (String.eqb k' k); simpl.
  - intro H. injection H as ->. lia.
  - intro H. specialize (IH H). lia.
Qed.

Lemma set_set {V : Type} (o : JS.object V) (k : string) (v w : V) :
  JS.set (JS.set o k v) k w = JS.set o k w.
Proof.
  induction o as [|[k' v'] o IH]; simpl.
  - now rewrite String.eqb_refl.
  - destruct (String.eqb k' k) eqn:E; simpl; rewrite E; [reflexivity|].
    now rewrite IH.
Qed.

(** What the callback does, by cases on the own properties of the
    accumulator and on the prototype. *)
Lemma group_cases (acc : JS.object (list Stat)) (stat : Stat) :
  group acc stat
  = match JS.own acc (flagName stat) with
    | Some stats => Normal (JS.set acc (flagName stat) (stats ++ [stat]))
    | None =>
        if JS.inherited (flagName stat) then Throw TypeError
        else Normal (acc ++ [(flagName stat, [stat])])
    end.
Proof.
  unfold group, JS.get.
  destruct (JS.own acc (flagName stat)) as [stats|] eqn:E.
  - now rewrite E.
  - destruct (JS.inherited (flagName stat)).
    + now rewrite E.
    + rewrite own_set_same, set_set. simpl. now rewrite set_new.
Qed.

Lemma group_sizes (acc acc' : JS.object (list Stat)) (stat : Stat) :
  group acc stat = Normal acc' -> sizes acc' = S (sizes acc).
Proof.
  rewrite group_cases.
  destruct (JS.own acc (flagName stat)) as [stats|] eqn:E.
  - intro H. injection H as <-.
    pose proof (sizes_set_own acc _ (stats ++ [stat]) stats E) as Hs.
    rewrite length_app in Hs. simpl in Hs. lia.
  - destruct (JS.inherited (flagName stat)); [discriminate|].
    intro H. injection H as <-. rewrite sizes_app. unfold sizes. simpl. lia.
Qed.

Lemma group_keys (acc acc' : JS.object (list Stat)) (stat : Stat) :
  group acc stat = Normal acc' ->
  NoDup (map fst acc) -> NoDup (map fst acc').
Proof.
  rewrite group_cases.
  destruct (JS.own acc (flagName stat)) as [stats|] eqn:E.
  - intro H. injection H as <-. now rewrite (set_own_keys _ _ _ _ E).
  - destruct (JS.inherited (flagName stat)); [discriminate|].
    intro H. injection H as <-. intro Hnd. rewrite map_app. simpl.
    apply own_None in E.
    apply (Permutation_NoDup (Permutation_cons_append _ _)).
    now constructor.
Qed.

(** The record [stat] is in the bucket of its flag name. *)
Lemma group_nonempty (acc acc' : JS.object (list Stat)) (stat : Stat) :
  group acc stat = Normal acc' ->
  Forall (fun p => snd p <> []) acc -> Forall (fun p => snd p <> []) acc'.
Proof.
  rewrite group_cases.
  destruct (JS.own acc (flagName stat)) as [stats|] eqn:E.
  - intro H. injection H as <-. clear E. intro Hall.
    induction acc as [|[k v] acc IH]; simpl.
    + repeat constructor. simpl. now destruct stats.
    + inversion Hall; subst.
      destruct (String.eqb k (flagName stat)); constructor; auto.
      simpl. now destruct stats.
  - destruct (JS.inherited (flagName stat)); [discriminate|].
    intro H. injection H as <-. intro Hall.
    apply Forall_app. split; [exact Hall|]. repeat constructor. discriminate.
Qed.

Lemma group_holds (acc acc' : JS.object (list Stat)) (stat : Stat) :
  group acc stat = Normal acc' ->
  bucketed acc' stat /\ forall s, bucketed acc s -> bucketed acc' s.
Proof.
  rewrite group_cases. unfold bucketed.
  destruct (JS.own acc (flagName stat)) as [stats|] eqn:E.
  - intro H. injection H as <-. split.
    + exists (stats ++ [stat]). rewrite own_set_same. split; [reflexivity|].
      apply in_or_app. right. now left.
    + intros s [b [Hb Hin]].
      destruct (String.eqb (flagName s) (flagName stat)) eqn:Ek.
      * apply String.eqb_eq in Ek. rewrite Ek in *.
        exists (stats ++ [stat]). rewrite own_set_same. split; [reflexivity|].
        apply in_or_app. left. congruence.
      * apply String.eqb_neq in Ek. exists b.
        now rewrite own_set_other.
  - destruct (JS.inherited (flagName stat)); [discriminate|].
    intro H. injection H as <-.
    rewrite <- (set_new acc (flagName stat) [stat] E). split.
    + exists [stat]. rewrite own_set_same. split; [reflexivity | now left].
    + intros s [b [Hb Hin]]. exists b. split; [|exact Hin].
      rewrite own_set_other; [exact Hb|]. congruence.
Qed.

Lemma group_own_keys (acc acc' : JS.object (list Stat)) (stat : Stat) :
  group acc stat = Normal acc' ->
  Forall (fun k => JS.inherited k = false) (map fst acc) ->
  Forall (fun k => JS.inherited k = false) (map fst acc').
Proof.
  rewrite group_cases.
  destruct (JS.own acc (flagName stat)) as [stats|] eqn:E.
  - intro H. injection H as <-. now rewrite (set_own_keys _ _ _ _ E).
  - destruct (JS.inherited (flagName stat)) eqn:Ei; [discriminate|].
    intro H. injection H as <-. intro Hall. rewrite map_app.
    apply Forall_app. split; [exact Hall|]. now repeat constructor.
Qed.

(** The callback throws exactly on a flag name found on the prototype and
    not among the own properties. *)
Lemma group_throws (acc : JS.object (list Stat)) (stat : Stat) (e : exn) :
  group acc stat = Throw e <->
  JS.own acc (flagName stat) = None /\ JS.inherited (flagName stat) = true.
Proof.
  rewrite group_cases.
  destruct (JS.own acc (flagName stat)) as [stats|].
  - split; [discriminate | intros [H _]; discriminate].
  - destruct (JS.inherited (flagName stat)).
    + destruct e. tauto.
    + split; [discriminate | intros [_ H]; discriminate].
Qed.

Lemma grouped_nil : grouped [] [].
Proof.
  split; try constructor. intros s [].
Qed.

Lemma grouped_step (processed : list Stat) (acc acc' : JS.object (list Stat))
  (stat : Stat) :
  grouped processed acc -> group acc stat = Normal acc' ->
  grouped (processed ++ [stat]) acc'.
Proof.
  intros [Hs Hk Hn Ho Ha] Hg. split.
  - rewrite (group_sizes _ _ _ Hg), Hs, length_app. simpl. lia.
  - now apply (group_keys _ _ _ Hg).
  - now apply (group_nonempty _ _ _ Hg).
  - now apply (group_own_keys _ _ _ Hg).
  - destruct (group_holds _ _ _ Hg) as [Hnew Hold].
    intros s Hin. apply in_app_or in Hin. destruct Hin as [Hin|[<-|[]]].
    + apply Hold. now apply Ha.
    + exact Hnew.
Qed.

Lemma reduce_grouped (rest processed : list Stat)
  (acc g : JS.object (list Stat)) :
  grouped processed acc -> reduce group rest acc = Normal g ->
  grouped (processed ++ rest) g.
Proof.
  revert processed acc. induction rest as [|stat rest IH]; intros processed acc Hacc; simpl.
  - intro H. injection H as <-. now rewrite app_nil_r.
  - destruct (group acc stat) as [acc'|e] eqn:Eg; simpl; [|discriminate].
    intro H. replace (processed ++ stat :: rest) with ((processed ++ [stat]) ++ rest)
      by now rewrite <- app_assoc.
    apply (IH _ acc'); [|exact H]. now apply (grouped_step _ acc).
Qed.

Lemma getStatsByFlag_grouped (st : State) (g : JS.object (list Stat)) :
  getStatsByFlag st = Normal g -> grouped (filteredStats st) g.
Proof. apply (reduce_grouped _ [] []), grouped_nil. Qed.

(** When the [reduce] completes and when it throws. *)
Lemma reduce_completes (rest : list Stat) (acc : JS.object (list Stat)) :
  Forall (fun k => JS.inherited k = false) (map fst acc) ->
  match reduce group rest acc with
  | Normal _ => existsb (fun s => JS.inherited (flagName s)) rest = false
  | Throw _ => existsb (fun s => JS.inherited (flagName s)) rest = true
  end.
Proof.
  revert acc. induction rest as [|stat rest IH]; intros acc Hacc; simpl.
  - reflexivity.
  - destruct (group acc stat) as [acc'|e] eqn:Eg; simpl.
    + specialize (IH acc' (group_own_keys _ _ _ Eg Hacc)).
      assert (Hi : JS.inherited (flagName stat) = false).
      { rewrite group_cases in Eg.
        destruct (JS.own acc (flagName stat)) as [stats|] eqn:E.
        - apply own_In in E. rewrite Forall_forall in Hacc.
          apply (Hacc (flagName stat)). apply in_map_iff.
          now exists (flagName stat, stats).
        - now destruct (JS.inherited (flagName stat)). }
      now rewrite Hi.
    + apply group_throws in Eg. destruct Eg as [_ ->]. reflexivity.
Qed.

End GroupFacts.

(** ** Ranking *)

Module RankFacts.
Import App Vocabulary SortFacts GroupFacts.

Lemma filter_split_perm {A : Type} (p : A -> bool) (l : list A) :
  Permutation (filter p l ++ filter (fun x => negb (p x)) l) l.
Proof.
  induction l as [|x l IH]; simpl; [constructor|].
  destruct (p x); simpl.
  - now constructor.
  - eapply perm_trans; [apply Permutation_sym, Permutation_middle|].
    now constructor.
Qed.

Lemma entries_perm {V : Type} (o : JS.object V) : Permutation (JS.entries o) o.
Proof.
  unfold JS.entries.
  eapply perm_trans; [|apply (filter_split_perm JS.is_index)].
  apply Permutation_app_tail, sort_perm.
Qed.

Lemma list_sum_perm (l l' : list nat) :
  Permutation l l' -> list_sum l = list_sum l'.
Proof. induction 1; simpl; lia. Qed.

Section Ranking.

Variable Number_toString : JS.number -> string.

(** The ranking, when the grouping completes. *)
Lemma getCountriesByCount_normal (st : State) (out : list CountryCount) :
  getCountriesByCount Number_toString st = Normal out ->
  exists g,
    getStatsByFlag st = Normal g
    /\ out = JS.sort (descending count)
               (map (fun p =>
                       if (0 <? List.length (filteredStats st))%nat
                       then entry_of Number_toString
                              (List.length (filteredStats st)) p
                       else {| name := fst p; count := List.length (snd p);
                               percentage := "0%" |})
                    (JS.entries g)).
Proof.
  unfold getCountriesByCount.
  destruct (getStatsByFlag st) as [g|e]; simpl; [|discriminate].
  intro H. injection H as <-. exists g. split; [reflexivity|].
  unfold descending. f_equal. apply map_ext. intros [k v].
  unfold entry_of. simpl. now destruct (0 <? List.length (filteredStats st))%nat.
Qed.

Lemma getCountriesByCount_total_count (st : State) (out : list CountryCount) :
  getCountriesByCount Number_toString st = Normal out ->
  total_count out = List.length (filteredStats st).
Proof.
  intro H. apply getCountriesByCount_normal in H.
  destruct H as [g [Hg ->]].
  apply getStatsByFlag_grouped in Hg. rewrite <- (grouped_sizes _ _ Hg).
  unfold total_count, sizes.
  rewrite (list_sum_perm _ _ (Permutation_map count (sort_perm _ _ _))).
  rewrite map_map.
  rewrite <- (list_sum_perm _ _ (Permutation_map _ (entries_perm g))).
  f_equal. apply map_ext. intro p.
  now destruct (0 <? _)%nat.
Qed.

(** C4. Whenever the ranking is produced, each of its entries has a count
    at least as large as the count of the entry that follows it. *)
Theorem getCountriesByCount_sorted (st : State) (out : list CountryCount) :
  getCountriesByCount Number_toString st = Normal out ->
  Sorted (follows count) out
  /\ forall i a b,
       nth_error out i = Some a -> nth_error out (S i) = Some b ->
       (count b <= count a)%nat.
Proof.
  intro H. apply getCountriesByCount_normal in H.
  destruct H as [g [_ ->]].
  pose proof (sort_sorted _ count
    (map (fun p =>
            if (0 <? List.length (filteredStats st))%nat
            then entry_of Number_toString (List.length (filteredStats st)) p
            else {| name := fst p; count := List.length (snd p);
                    percentage := "0%" |})
         (JS.entries g))) as Hs.
  split; [exact Hs|]. intros i a b. now apply sorted_adjacent.
Qed.

(** C3, at a record whose flag is "constructor". The grouping finds
    [Object] under that name on the prototype of the accumulator, creates
    no bucket and calls a [push] that does not exist: no ranking is
    produced, and rendering throws as well. *)
Theorem getCountriesByCount_inherited_flag :
  filteredStats (handleSearch st_constructor)
  = [record (Some "constructor") 5 "erreur"]
  /\ getCountriesByCount Number_toString (handleSearch st_constructor)
     = Throw TypeError
  /\ render Number_toString (handleSearch st_constructor) = Throw TypeError.
Proof. repeat split. Qed.

(** The ranking is produced exactly when no flag name of the records is a
    property name of the prototype. *)
Lemma getCountriesByCount_completes (st : State) :
  match getCountriesByCount Number_toString st with
  | Normal _ =>
      existsb (fun s => JS.inherited (flagName s)) (filteredStats st) = false
  | Throw _ =>
      existsb (fun s => JS.inherited (flagName s)) (filteredStats st) = true
  end.
Proof.
  pose proof (reduce_completes (filteredStats st) [] (Forall_nil _)) as H.
  unfold getCountriesByCount, getStatsByFlag.
  now destruct (reduce group (filteredStats st) []).
Qed.

(** C6. Three loaded records with the flags "FR", "FR" and "DE",
    searched with no criterion, are ranked as FR with 2 records and
    "66.7%", then DE with 1 record and "33.3%"; each percentage is the
    count divided by the total, times 100, printed by [toFixed(1)] and
    followed by "%". *)
Theorem ranking_FR_FR_DE (st : State) (r1 r2 r3 : Stat) :
  allStats st = [r1; r2; r3] ->
  userId st = ""%string -> type st = ""%string -> drapeau st = ""%string ->
  Stat.drapeau (Stat.data r1) = Some "FR"%string ->
  Stat.drapeau (Stat.data r2) = Some "FR"%string ->
  Stat.drapeau (Stat.data r3) = Some "DE"%string ->
  getCountriesByCount Number_toString (handleSearch st)
  = Normal [ {| name := "FR"; count := 2; percentage := "66.7%" |};
             {| name := "DE"; count := 1; percentage := "33.3%" |} ]
  /\ getCountriesByCount Number_toString (handleSearch st)
     = Normal [ entry_of Number_toString 3 ("FR"%string, [r1; r2]);
                entry_of Number_toString 3 ("DE"%string, [r3]) ].
Proof.
  intros Ha Hu Ht Hd H1 H2 H3.
  destruct st as [u t d fs als l e]. simpl in Ha, Hu, Ht, Hd. subst.
  destruct r1 as [[t1 n1 d1 a1] i1 ty1 u1], r2 as [[t2 n2 d2 a2] i2 ty2 u2],
    r3 as [[t3 n3 d3 a3] i3 ty3 u3].
  simpl in H1, H2, H3. subst. split; vm_compute; reflexivity.
Qed.

(** C7. One record with no flag gives the single entry named
    "Tous drapeaux", with count 1 and "100.0%". In general the callback of
    the grouping never throws on a record with no flag, and whenever the
    grouping completes, its buckets have distinct names and every record
    with no flag is in the bucket named "Tous drapeaux". *)
Theorem no_flag_bucket :
  (forall st stat,
     filteredStats st = [stat] -> Stat.drapeau (Stat.data stat) = None ->
     getCountriesByCount Number_toString st
     = Normal [ {| name := no_flag_label; count := 1;
                   percentage := "100.0%" |} ])
  /\ (forall acc stat,
        Stat.drapeau (Stat.data stat) = None ->
        exists acc', group acc stat = Normal acc')
  /\ (forall st g,
        getStatsByFlag st = Normal g ->
        NoDup (map fst g)
        /\ forall stat,
             In stat (filteredStats st) ->
             Stat.drapeau (Stat.data stat) = None ->
             exists bucket,
               JS.own g no_flag_label = Some bucket /\ In stat bucket).
Proof.
  split; [|split].
  - intros st stat Hf Hnone.
    destruct st as [u t d fs als l e]. simpl in Hf. subst.
    destruct stat as [[t1 n1 d1 a1] i1 ty1 u1]. simpl in Hnone. subst.
    vm_compute. reflexivity.
  - intros acc stat Hnone. rewrite group_cases.
    assert (Hk : flagName stat = no_flag_label)
      by (unfold flagName; now rewrite Hnone).
    rewrite Hk. destruct (JS.own acc no_flag_label); eexists; reflexivity.
  - intros st g Hg. apply getStatsByFlag_grouped in Hg. split.
    + apply (grouped_keys _ _ Hg).
    + intros stat Hin Hnone.
      destruct (grouped_all _ _ Hg stat Hin) as [bucket [Hb Hs]].
      exists bucket. split; [|exact Hs].
      unfold flagName in Hb. now rewrite Hnone in Hb.
Qed.

End Ranking.

Lemma getCountriesByCount_sorted_witness :
  getCountriesByCount (fun _ => ""%string) (handleSearch st_loaded)
  = Normal [ {| name := "FR"; count := 2; percentage := "66.7%" |};
             {| name := "DE"; count := 1; percentage := "33.3%" |} ]
  /\ (1 <= 2)%nat.
Proof.
  assert (H : getCountriesByCount (fun _ => ""%string) (handleSearch st_loaded)
              = Normal [ {| name := "FR"; count := 2; percentage := "66.7%" |};
                         {| name := "DE"; count := 1; percentage := "33.3%" |} ])
    by reflexivity.
  split; [exact H|].
  destruct (getCountriesByCount_sorted _ _ _ H) as [_ Hadj].
  exact (Hadj 0%nat _ _ eq_refl eq_refl).
Defined.

Lemma ranking_FR_FR_DE_witness :
  getCountriesByCount (fun _ => ""%string) (handleSearch st_loaded)
  = Normal [ {| name := "FR"; count := 2; percentage := "66.7%" |};
             {| name := "DE"; count := 1; percentage := "33.3%" |} ].
Proof.
  apply (ranking_FR_FR_DE (fun _ => ""%string) st_loaded
           (record (Some "FR") 5 "erreur") (record (Some "FR") 6 "passer")
           (record (Some "DE") 5 "indice")); reflexivity.
Defined.

Lemma no_flag_bucket_witness :
  getCountriesByCount (fun _ => ""%string) (handleSearch st_no_flag)
  = Normal [ {| name := no_flag_label; count := 1; percentage := "100.0%" |} ]
  /\ exists bucket,
       JS.own [ (no_flag_label, [record None 5 "erreur"; record None 7 "indice"]);
                ("FR"%string, [record (Some "FR") 6 "passer"]) ]
         no_flag_label = Some bucket
       /\ In (record None 7 "indice") bucket.
Proof.
  destruct (no_flag_bucket (fun _ => ""%string)) as (Hone & _ & Hall).
  split.
  - apply (Hone (handleSearch st_no_flag) (record None 5 "erreur"));
      reflexivity.
  - apply (Hall st_mixed); [reflexivity | | reflexivity].
    right; right; left; reflexivity.
Defined.

End RankFacts.


(** ** Percentages *)

Module PercentFacts.
Import App Vocabulary SortFacts GroupFacts RankFacts FloatFacts.

Lemma of_nat_small (n : nat) :
  (1 <= n)%nat -> Z.of_nat n < 2 ^ 53 ->
  exists m,
    JS.of_nat n = S754_finite false m (Zdigits2 (Z.of_nat n) - 53)
    /\ digits2_pos m = 53%positive.
Proof.
  intros Hn Hlt. unfold JS.of_nat, JS.of_Z, JS.prec, JS.emax.
  destruct (Z.of_nat n) as [|p|p] eqn:E; try lia.
  destruct (binary_round_small false p Hlt) as (m & Hm & Hd & _).
  exists m. split; [exact Hm | exact Hd].
Qed.

(** The Number [count / total * 100] of an entry is a zero or a positive
    finite value far below 10^21. *)
Lemma percentage_number (c t : nat) :
  (1 <= c)%nat -> Z.of_nat c < 2 ^ 32 -> (1 <= t)%nat -> Z.of_nat t < 2 ^ 53 ->
  let x := JS.mul (JS.div (JS.of_nat c) (JS.of_nat t)) (JS.of_Z 100) in
  x = S754_zero false
  \/ exists m e, x = S754_finite false m e /\ Z.pos m < 2 ^ 53 /\ e <= -12.
Proof.
  intros Hc Hc32 Ht Ht53 x. unfold x. clear x.
  assert (Hc53 : Z.of_nat c < 2 ^ 53) by (change (2 ^ 32) with 4294967296 in Hc32;
    change (2 ^ 53) with 9007199254740992; lia).
  destruct (of_nat_small c Hc Hc53) as [mc [-> Hmc]].
  destruct (of_nat_small t Ht Ht53) as [mt [-> Hmt]].
  assert (Hdc : Zdigits2 (Z.of_nat c) <= 32) by (apply Zdigits2_le; lia).
  assert (Hdt : 1 <= Zdigits2 (Z.of_nat t)).
  { assert (0 < Zdigits2 (Z.of_nat t)); [|lia].
    apply Zdigits2_gt; [lia|]. simpl. lia. }
  pose proof (SFdiv_bounds mc mt (Zdigits2 (Z.of_nat c) - 53)
                (Zdigits2 (Z.of_nat t) - 53)) as Hdiv.
  cbv zeta in Hdiv. rewrite Hmc, Hmt in Hdiv.
  unfold JS.mul, JS.div, JS.prec, JS.emax.
  change (JS.of_Z 100) with (S754_finite false 7036874417766400 (-46)).
  destruct (SFdiv 53 1024 _ _) as [s|s| |s mq eq].
  - left. now subst s.
  - lia.
  - contradiction.
  - destruct Hdiv as (-> & Hmq & Heq).
    pose proof (SFmul_bounds mq 7036874417766400 eq (-46)) as Hmul.
    cbv zeta in Hmul.
    assert (Hdq : Z.pos (digits2_pos mq) <= 53)
      by (apply (Zdigits2_le (Z.pos mq)); lia).
    change (digits2_pos 7036874417766400) with 53%positive in Hmul.
    destruct (SFmul 53 1024 _ _) as [s|s| |s m e].
    + left. now subst s.
    + lia.
    + contradiction.
    + right. destruct Hmul as (-> & Hm & He).
      exists m, e. repeat split; trivial. lia.
Qed.

Lemma append_assoc (a b c : string) :
  ((a ++ b) ++ c = a ++ (b ++ c))%string.
Proof. induction a as [|x a IH]; simpl; congruence. Qed.

Lemma length_append (a b : string) :
  String.length (a ++ b) = (String.length a + String.length b)%nat.
Proof. induction a as [|x a IH]; simpl; congruence. Qed.

Lemma all_digits_append (a b : string) :
  JS.all_digits a = true -> JS.all_digits b = true ->
  JS.all_digits (a ++ b) = true.
Proof.
  induction a as [|x a IH]; simpl; [trivial|].
  intros Ha Hb. apply andb_true_iff in Ha. destruct Ha as [Hx Ha].
  now rewrite Hx, IH.
Qed.

Lemma all_digits_zeros (n : nat) : JS.all_digits (JS.zeros n) = true.
Proof. induction n as [|n IH]; simpl; trivial. Qed.

Lemma length_zeros (n : nat) : String.length (JS.zeros n) = n.
Proof. induction n as [|n IH]; simpl; congruence. Qed.

Lemma all_digits_decimal (n : N) : JS.all_digits (JS.decimal n) = true.
Proof.
  unfold JS.decimal.
  induction (N.to_uint n) as [|u IH|u IH|u IH|u IH|u IH|u IH|u IH|u IH|u IH|u IH];
    simpl; trivial.
Qed.

Lemma digit_not_point (c : ascii) :
  JS.is_digit c = true -> Ascii.eqb c "." = false.
Proof.
  intro H. destruct (Ascii.eqb c ".") eqn:E; [|reflexivity].
  apply Ascii.eqb_eq in E. subst c. discriminate H.
Qed.

(** The last character of a string of digits, set apart by a point and
    followed by "%". *)
Lemma point_before_last (s : string) :
  JS.all_digits s = true -> (1 <= String.length s)%nat ->
  fraction_percent
    ((substring 0 (String.length s - 1) s ++ "."
        ++ substring (String.length s - 1) 1 s) ++ "%") = true.
Proof.
  induction s as [|c r IH]; simpl String.length; [lia|].
  intros Hall _. simpl in Hall. apply andb_true_iff in Hall.
  destruct Hall as [Hc Hr].
  destruct r as [|c2 r2].
  - simpl. now rewrite Hc.
  - set (r := String c2 r2) in *.
    assert (Hk : (1 <= String.length r)%nat) by (unfold r; simpl; lia).
    replace (S (String.length r) - 1)%nat with (S (String.length r - 1)) by lia.
    change (substring 0 (S (String.length r - 1)) (String c r))
      with (String c (substring 0 (String.length r - 1) r)).
    change (substring (S (String.length r - 1)) 1 (String c r))
      with (substring (String.length r - 1) 1 r).
    cbn [append fraction_percent].
    rewrite (digit_not_point c Hc), Hc. now apply IH.
Qed.

Lemma fixed_notation_one_decimal (n : Z) :
  one_decimal_percent (JS.fixed_notation n 1 ++ "%") = true.
Proof.
  unfold JS.fixed_notation.
  set (m := JS.decimal (Z.to_N n)).
  assert (Hm : JS.all_digits m = true) by apply all_digits_decimal.
  set (m' := if (String.length m <=? 1)%nat
             then (JS.zeros (1 + 1 - String.length m) ++ m)%string else m).
  set (k' := if (String.length m <=? 1)%nat then (1 + 1)%nat
             else String.length m).
  assert (Hm' : JS.all_digits m' = true /\ String.length m' = k'
                /\ (2 <= k')%nat).
  { unfold m', k'. destruct (String.length m <=? 1)%nat eqn:E.
    - apply Nat.leb_le in E. repeat split.
      + apply all_digits_append; [apply all_digits_zeros | exact Hm].
      + rewrite length_append, length_zeros. lia.
      + lia.
    - apply Nat.leb_gt in E. repeat split; [exact Hm | lia]. }
  destruct Hm' as (Hall & Hlen & Hk). clearbody m' k'. subst k'.
  destruct m' as [|c r]; [simpl in Hk; lia|].
  simpl in Hall. apply andb_true_iff in Hall. destruct Hall as [Hc Hr].
  simpl String.length in *.
  assert (Hr1 : (1 <= String.length r)%nat) by lia.
  replace (S (String.length r) - 1)%nat with (S (String.length r - 1)) by lia.
  change (substring 0 (S (String.length r - 1)) (String c r))
    with (String c (substring 0 (String.length r - 1) r)).
  change (substring (S (String.length r - 1)) 1 (String c r))
    with (substring (String.length r - 1) 1 r).
  cbn [append one_decimal_percent]. rewrite Hc. now apply point_before_last.
Qed.

Section Percentages.

Variable Number_toString : JS.number -> string.

Lemma toFixed_small (m : positive) (e : Z) :
  Z.pos m < 2 ^ 53 -> e <= -12 ->
  JS.toFixed Number_toString (S754_finite false m e) 1
  = JS.fixed_notation (JS.nearest_scaled (Z.pos m) (2 ^ (- e)) 1) 1.
Proof.
  intros Hm He. unfold JS.toFixed, JS.exact_fraction.
  destruct (0 <=? e) eqn:E0; [apply Z.leb_le in E0; lia|].
  assert (H2 : 0 < 2 ^ (- e)) by (apply Z.pow_pos_nonneg; lia).
  change (2 ^ 53) with 9007199254740992 in Hm.
  change (10 ^ 21) with 1000000000000000000000.
  destruct (1000000000000000000000 * 2 ^ (- e) <=? Z.pos m) eqn:E1;
    [apply Z.leb_le in E1; nia|].
  reflexivity.
Qed.

(** The percentage of an entry whose count is between 1 and the total. *)
Lemma entry_percentage (c t : nat) :
  (1 <= c)%nat -> Z.of_nat c < 2 ^ 32 -> (1 <= t)%nat -> Z.of_nat t < 2 ^ 53 ->
  one_decimal_percent
    (JS.toFixed Number_toString
       (JS.mul (JS.div (JS.of_nat c) (JS.of_nat t)) (JS.of_Z 100)) 1 ++ "%")
  = true.
Proof.
  intros Hc Hc32 Ht Ht53.
  destruct (percentage_number c t Hc Hc32 Ht Ht53) as [->|(m & e & -> & Hm & He)].
  - reflexivity.
  - rewrite toFixed_small by assumption. apply fixed_notation_one_decimal.
Qed.

Lemma in_sizes (p : string * list Stat) (g : JS.object (list Stat)) :
  In p g -> (List.length (snd p) <= sizes g)%nat.
Proof.
  unfold sizes. induction g as [|q g IH]; simpl; [tauto|].
  intros [->|Hin]; [lia|]. specialize (IH Hin). lia.
Qed.

(** C10. Whenever the ranking is produced from fewer than 2^32 records (an
    array holds no more), each of its entries has a count between 1 and
    the total, so the total is positive and the percentage is the one
    printed by [toFixed(1)] followed by "%", never the "0%" of the guard:
    digits, a point, exactly one digit, then "%". *)
Theorem percentage_one_decimal (st : State) (out : list CountryCount) :
  getCountriesByCount Number_toString st = Normal out ->
  Z.of_nat (List.length (filteredStats st)) < 2 ^ 32 ->
  Forall (fun c =>
            (1 <= count c <= List.length (filteredStats st))%nat
            /\ percentage c
               = (JS.toFixed Number_toString
                    (JS.mul (JS.div (JS.of_nat (count c))
                                    (JS.of_nat (List.length (filteredStats st))))
                            (JS.of_Z 100)) 1 ++ "%")%string
            /\ one_decimal_percent (percentage c) = true
            /\ percentage c <> "0%"%string) out.
Proof.
  intros Hout Hlen. apply getCountriesByCount_normal in Hout.
  destruct Hout as [g [Hg ->]]. apply getStatsByFlag_grouped in Hg.
  apply Forall_forall. intros c Hin.
  apply (Permutation_in _ (sort_perm _ _ _)) in Hin.
  apply in_map_iff in Hin. destruct Hin as [p [Hc Hp]].
  apply (Permutation_in _ (entries_perm g)) in Hp.
  pose proof (in_sizes p g Hp) as Hle. rewrite (grouped_sizes _ _ Hg) in Hle.
  assert (Hpos : (1 <= List.length (snd p))%nat).
  { pose proof (grouped_nonempty _ _ Hg) as Hne. rewrite Forall_forall in Hne.
    specialize (Hne p Hp). destruct (snd p); [congruence | simpl; lia]. }
  assert (Hguard : (0 <? List.length (filteredStats st))%nat = true)
    by (apply Nat.ltb_lt; lia).
  rewrite Hguard in Hc. subst c. unfold entry_of. cbn [percentage count].
  assert (Hfmt : one_decimal_percent
                   (JS.toFixed Number_toString
                      (JS.mul (JS.div (JS.of_nat (List.length (snd p)))
                                 (JS.of_nat (List.length (filteredStats st))))
                              (JS.of_Z 100)) 1 ++ "%") = true).
  { apply entry_percentage; lia. }
  repeat split; try lia; try exact Hfmt.
  intro H0. rewrite H0 in Hfmt. discriminate Hfmt.
Qed.

End Percentages.

Lemma percentage_one_decimal_witness :
  getCountriesByCount (fun _ => ""%string) (handleSearch st_loaded)
  = Normal [ {| name := "FR"; count := 2; percentage := "66.7%" |};
             {| name := "DE"; count := 1; percentage := "33.3%" |} ]
  /\ one_decimal_percent "66.7%" = true
  /\ one_decimal_percent "33.3%" = true.
Proof.
  assert (H : getCountriesByCount (fun _ => ""%string) (handleSearch st_loaded)
              = Normal [ {| name := "FR"; count := 2; percentage := "66.7%" |};
                         {| name := "DE"; count := 1; percentage := "33.3%" |} ])
    by reflexivity.
  split; [exact H|].
  pose proof (percentage_one_decimal _ _ _ H ltac:(reflexivity)) as Hall.
  inversion Hall as [|c1 l1 H1 Hall1]; subst.
  inversion Hall1 as [|c2 l2 H2 _]; subst.
  split; [apply H1 | apply H2].
Defined.

End PercentFacts.

(** ** The embedding on known values *)

Module Checks.
Import App Vocabulary.

Example parseInt_values :
  JS.parseInt "42" = JS.of_Z 42
  /\ JS.parseInt "  -7px" = JS.of_Z (-7)
  /\ JS.parseInt "1.5" = JS.of_Z 1
  /\ JS.parseInt "0x1F" = JS.of_Z 31
  /\ JS.parseInt "" = JS.NaN
  /\ JS.parseInt "abc" = JS.NaN.
Proof. repeat split. Qed.

Example toFixed_values :
  let toFixed := JS.toFixed (fun _ => ""%string) in
  toFixed (JS.div (JS.of_Z 1) (JS.of_Z 20)) 1%nat = "0.1"%string
  /\ toFixed (JS.div (JS.of_Z 1) (JS.of_Z 4)) 1%nat = "0.3"%string
  /\ toFixed (JS.div (JS.of_Z 7) (JS.of_Z 20)) 1%nat = "0.3"%string
  /\ toFixed (JS.of_Z (-5)) 2%nat = "-5.00"%string
  /\ toFixed (JS.of_Z 0) 1%nat = "0.0"%string
  /\ toFixed (JS.of_Z 12) 0%nat = "12"%string.
Proof. repeat split. Qed.

Example entries_order :
  map fst (JS.entries [("b"%string, 1); ("2"%string, 2); ("a"%string, 3);
                       ("1"%string, 4); ("01"%string, 5)])
  = ["1"; "2"; "b"; "a"; "01"]%string.
Proof. reflexivity. Qed.

Example sort_is_stable :
  JS.sort (descending snd) [("a"%string, 1); ("b"%string, 3); ("c"%string, 1);
                            ("d"%string, 3)]%nat
  = [("b"%string, 3); ("d"%string, 3); ("a"%string, 1); ("c"%string, 1)]%nat.
Proof. reflexivity. Qed.

(** The scenario of the filter: two records, users 5 and 6, searched with
    the identifier 5. *)
Example search_by_identifier :
  filteredStats
    (handleSearch (fresh [record None 5 "erreur"; record None 6 "passer"] "5" "" ""))
  = [record None 5 "erreur"].
Proof. reflexivity. Qed.

Example empty_ranking :
  getCountriesByCount (fun _ => ""%string) (fresh [] "" "" "") = Normal [].
Proof. reflexivity. Qed.

End Checks.

(** * Further properties *)

(** ** Identifiers typed as numbers *)

Module ParseFacts.
Import App Vocabulary Terms SearchFacts PercentFacts.

Lemma digit_cases (c : ascii) :
  JS.is_digit c = true ->
  JS.is_white_space c = false
  /\ JS.radix_digit 10 c = Some (Z.of_nat (nat_of_ascii c) - 48)
  /\ c <> "-"%char /\ c <> "+"%char /\ c <> "x"%char /\ c <> "X"%char.
Proof.
  destruct c as [[] [] [] [] [] [] [] []]; intro H; try discriminate H;
    repeat split; discriminate.
Qed.

(** No white space begins with the byte of a digit. *)
Lemma digit_not_space (c : ascii) :
  JS.is_digit c = true ->
  JS.is_white_space c = false
  /\ (forall c2, JS.white_space_2 c c2 = false)
  /\ (forall c2 c3, JS.white_space_3 c c2 c3 = false).
Proof.
  destruct c as [[] [] [] [] [] [] [] []]; intro H; try discriminate H;
    repeat split.
Qed.

Lemma trim_start_digit (c : ascii) (r : string) :
  JS.is_digit c = true -> JS.trim_start (String c r) = String c r.
Proof.
  intro Hc. destruct (digit_not_space c Hc) as (H1 & H2 & H3).
  cbn [JS.trim_start]. rewrite H1.
  destruct r as [|c2 r2]; [reflexivity|]. rewrite H2.
  destruct r2 as [|c3 r3]; [reflexivity|]. now rewrite H3.
Qed.

Lemma trim_start_digits (s : string) :
  JS.all_digits s = true -> JS.trim_start s = s.
Proof.
  destruct s as [|c r]; [reflexivity|]. intro H. simpl in H.
  apply andb_true_iff in H. destruct H as [Hc _].
  now apply trim_start_digit.
Qed.

Lemma strip_sign_digit (c : ascii) (r : string) :
  JS.is_digit c = true -> JS.strip_sign (String c r) = (false, String c r).
Proof.
  destruct c as [[] [] [] [] [] [] [] []]; intro H; try discriminate H; reflexivity.
Qed.

Lemma strip_hex_prefix_digits (c : ascii) (r : string) :
  JS.is_digit c = true ->
  match r with
  | String c' _ => c' <> "x"%char /\ c' <> "X"%char
  | EmptyString => True
  end ->
  JS.strip_hex_prefix (String c r) = (10, String c r).
Proof.
  intros Hc Hr. destruct r as [|c' r']; [|destruct Hr as [Hx HX]];
    destruct c as [[] [] [] [] [] [] [] []]; try discriminate Hc; try reflexivity.
  destruct c' as [[] [] [] [] [] [] [] []]; try reflexivity; congruence.
Qed.

(** Reading the digits of a decimal numeral from an accumulator. *)
Lemma read_digits_acc (u : Decimal.uint) (acc : positive) (rest : string) :
  match rest with
  | String c _ => JS.radix_digit 10 c = None
  | EmptyString => True
  end ->
  JS.read_digits 10 (NilEmpty.string_of_uint u ++ rest) (Some (Z.pos acc))
  = Some (Z.pos (Pos.of_uint_acc u acc)).
Proof.
  intro Hrest. revert acc.
  induction u; intro acc;
    cbn [NilEmpty.string_of_uint append JS.read_digits Pos.of_uint_acc];
    [ destruct rest as [|c r]; simpl; [reflexivity | now rewrite Hrest] | .. ];
    rewrite <- IHu;
    match goal with
    | |- context [JS.radix_digit 10 ?c] =>
        let v := eval vm_compute in (JS.radix_digit 10 c) in
        change (JS.radix_digit 10 c) with v
    end;
    cbv iota beta; f_equal; f_equal; lia.
Qed.

Ltac eval_digit :=
  match goal with
  | |- context [JS.radix_digit 10 ?c] =>
      let v := eval vm_compute in (JS.radix_digit 10 c) in
      change (JS.radix_digit 10 c) with v
  end; cbv iota beta.

Lemma read_digits_zero (u : Decimal.uint) (rest : string) :
  match rest with
  | String c _ => JS.radix_digit 10 c = None
  | EmptyString => True
  end ->
  JS.read_digits 10 (NilEmpty.string_of_uint u ++ rest) (Some 0)
  = Some (Z.of_N (Pos.of_uint u)).
Proof.
  intro Hrest.
  induction u;
    cbn [NilEmpty.string_of_uint append JS.read_digits Pos.of_uint];
    [ destruct rest as [|c r]; simpl; [reflexivity | now rewrite Hrest]
    | eval_digit; exact IHu
    | eval_digit; apply (read_digits_acc u _ rest Hrest) .. ].
Qed.

Lemma read_digits_uint (u : Decimal.uint) (rest : string) :
  u <> Decimal.Nil ->
  match rest with
  | String c _ => JS.radix_digit 10 c = None
  | EmptyString => True
  end ->
  JS.read_digits 10 (NilEmpty.string_of_uint u ++ rest) None
  = Some (Z.of_N (Pos.of_uint u)).
Proof.
  intros Hnil Hrest.
  destruct u; [congruence | ..];
    cbn [NilEmpty.string_of_uint append JS.read_digits Pos.of_uint];
    eval_digit;
    first [ apply (read_digits_zero u rest Hrest)
          | apply (read_digits_acc u _ rest Hrest) ].
Qed.

Lemma to_uint_nonnil (n : N) : N.to_uint n <> Decimal.Nil.
Proof.
  destruct n as [|p]; simpl; [discriminate|].
  apply DecimalPos.Unsigned.to_uint_nonnil.
Qed.

Lemma decimal_first (n : N) :
  exists c r, JS.decimal n = String c r /\ JS.is_digit c = true
              /\ JS.all_digits r = true.
Proof.
  pose proof (all_digits_decimal n) as Hall.
  pose proof (to_uint_nonnil n) as Hnil.
  unfold JS.decimal in *.
  destruct (N.to_uint n); [congruence | ..]; simpl in *;
    eexists; eexists; (split; [reflexivity|]); split; trivial.
Qed.

(** [parseInt] of a decimal numeral, whatever follows it. *)
Lemma parseInt_decimal (n : N) (rest : string) :
  stops_digits rest ->
  JS.parseInt (JS.decimal n ++ rest) = JS.of_Z (Z.of_N n).
Proof.
  intro Hrest.
  assert (Hr : match rest with
               | String c _ => JS.radix_digit 10 c = None
               | EmptyString => True
               end).
  { destruct rest as [|c r]; [trivial|]. destruct Hrest as [Hd _].
    destruct c as [[] [] [] [] [] [] [] []]; try discriminate Hd; reflexivity. }
  pose proof (read_digits_uint (N.to_uint n) rest (to_uint_nonnil n) Hr) as Hread.
  change (Pos.of_uint (N.to_uint n)) with (N.of_uint (N.to_uint n)) in Hread.
  rewrite DecimalN.Unsigned.of_to in Hread.
  destruct (decimal_first n) as (c & r & Hdec & Hc & Hall).
  unfold JS.parseInt.
  fold (JS.decimal n) in Hread. rewrite Hdec in *.
  cbn [append]. rewrite (trim_start_digit c _ Hc).
  rewrite (strip_sign_digit c _ Hc).
  rewrite strip_hex_prefix_digits; [| exact Hc |].
  - cbn [append] in Hread. rewrite Hread. reflexivity.
  - destruct r as [|c' r']; cbn [append].
    + destruct rest as [|c' r']; [trivial | unfold stops_digits in Hrest; tauto].
    + simpl in Hall. apply andb_true_iff in Hall. destruct Hall as [Hc' _].
      destruct (digit_cases c' Hc') as (_ & _ & _ & _ & Hx & HX). tauto.
Qed.

Lemma satisfies_iff (st : State) (stat : Stat) :
  satisfies st stat = true <->
  (userId st = ""%string
   \/ JS.strict_eq (Stat.user_id stat) (JS.parseInt (userId st)) = true)
  /\ (type st = ""%string \/ Stat.type stat = type st)
  /\ (drapeau st = ""%string
      \/ Stat.drapeau (Stat.data stat) = Some (drapeau st)).
Proof.
  unfold satisfies. rewrite !andb_true_iff, !orb_true_iff, !negb_true_iff.
  rewrite String.eqb_eq, opt_strict_eq_true.
  assert (Hf : forall s, JS.truthy s = false <-> s = ""%string)
    by (intro s; destruct s; simpl; split; congruence).
  rewrite !Hf. tauto.
Qed.

(** X1. When the identifier field holds the decimal digits of [n], below
    2^53, followed by anything that starts with neither a digit nor an x
    (a fraction, an exponent, nothing), a search keeps exactly the loaded
    records whose integer [user_id] is [n] and that pass the two other
    criteria; what follows the digits changes nothing. *)
Theorem search_by_identifier_number (st : State) (n : N) (rest : string) :
  userId st = (JS.decimal n ++ rest)%string -> stops_digits rest ->
  Z.of_N n < 2 ^ 53 ->
  (forall stat a,
     Stat.user_id stat = JS.of_Z a -> Z.abs a < 2 ^ 53 ->
     (In stat (filteredStats (handleSearch st)) <->
      In stat (allStats st)
      /\ a = Z.of_N n
      /\ (type st = ""%string \/ Stat.type stat = type st)
      /\ (drapeau st = ""%string
          \/ Stat.drapeau (Stat.data stat) = Some (drapeau st))))
  /\ filteredStats (handleSearch st)
     = filteredStats (handleSearch (setUserId (JS.decimal n) st)).
Proof.
  intros Hu Hrest Hn.
  assert (Hne : forall r, (JS.decimal n ++ r)%string <> ""%string).
  { intro r. destruct (decimal_first n) as (c & r' & -> & _). discriminate. }
  split.
  - intros stat a Ha Hbound. rewrite handleSearch_filter, filter_In.
    rewrite satisfies_iff, Hu, (parseInt_decimal n rest Hrest), Ha.
    rewrite FloatFacts.strict_eq_of_Z by lia.
    specialize (Hne rest). tauto.
  - rewrite !handleSearch_filter. apply filter_ext. intro stat.
    apply eq_true_iff_eq. rewrite !satisfies_iff. simpl. rewrite Hu.
    rewrite (parseInt_decimal n rest Hrest).
    replace (JS.decimal n) with (JS.decimal n ++ "")%string at 2 3
      by (clear; induction (JS.decimal n); simpl; congruence).
    rewrite (parseInt_decimal n "" I).
    pose proof (Hne rest). pose proof (Hne ""%string). tauto.
Qed.

Lemma search_by_identifier_number_witness :
  filteredStats (handleSearch (fresh three_records "5.9" "" ""))
  = filteredStats (handleSearch (fresh three_records "5" "" ""))
  /\ (In (record (Some "FR") 6 "passer")
         (filteredStats (handleSearch (fresh three_records "5.9" "" "")))
      <-> In (record (Some "FR") 6 "passer") three_records /\ 6 = 5
          /\ (""%string = ""%string \/ "passer"%string = ""%string)
          /\ (""%string = ""%string \/ Some "FR"%string = Some ""%string)).
Proof.
  destruct (search_by_identifier_number (fresh three_records "5.9" "" "")
              5%N ".9"%string) as [Hin Heq].
  - reflexivity.
  - simpl. repeat split; discriminate.
  - reflexivity.
  - split; [exact Heq|].
    apply (Hin (record (Some "FR") 6 "passer") 6); [reflexivity|].
    reflexivity.
Defined.

End ParseFacts.

(** ** More on searching *)

Module SearchMore.
Import App Vocabulary Terms SearchFacts ParseFacts.

Lemma satisfies_cleared (st st' : State) (stat : Stat) :
  (userId st' = ""%string \/ userId st' = userId st) ->
  (type st' = ""%string \/ type st' = type st) ->
  (drapeau st' = ""%string \/ drapeau st' = drapeau st) ->
  satisfies st stat = true -> satisfies st' stat = true.
Proof.
  rewrite !satisfies_iff. intros [Hu|Hu] [Ht|Ht] [Hd|Hd]; rewrite Hu, Ht, Hd; tauto.
Qed.

(** X2. Emptying a criterion never loses a result: every record found by
    a search is still found when the identifier, the type or the flag
    criterion is emptied. *)
Theorem clearing_a_criterion_enlarges (st : State) :
  incl (filteredStats (handleSearch st))
       (filteredStats (handleSearch (setUserId "" st)))
  /\ incl (filteredStats (handleSearch st))
          (filteredStats (handleSearch (setType "" st)))
  /\ incl (filteredStats (handleSearch st))
          (filteredStats (handleSearch (setDrapeau "" st))).
Proof.
  repeat split; intros stat Hin; rewrite handleSearch_filter in *;
    apply filter_In in Hin; destruct Hin as [Hin Hs]; apply filter_In;
    (split; [exact Hin|]);
    apply (satisfies_cleared st); simpl; auto.
Qed.

Section Reset.

Variable Number_toString : JS.number -> string.

(** X3. A reset empties the three criteria and the result, so that no
    ranking is shown, and leaves the loaded records, the loading flag and
    the error as they are; a search made right after it returns every
    loaded record. *)
Theorem reset_then_search (st : State) :
  filteredStats (handleSearch (handleReset st)) = allStats st
  /\ getCountriesByCount Number_toString (handleReset st) = Normal []
  /\ (userId (handleReset st), type (handleReset st), drapeau (handleReset st))
     = (""%string, ""%string, ""%string)
  /\ (allStats (handleReset st), loading (handleReset st), error (handleReset st))
     = (allStats st, loading st, error st).
Proof. repeat split. Qed.

End Reset.

End SearchMore.

(** ** What the grouping holds *)

Module GroupExact.
Import App Vocabulary Terms SortFacts GroupFacts RankFacts.

Lemma first_occurrences_In (k : string) (l : list string) :
  In k (first_occurrences l) <-> In k l.
Proof.
  induction l as [|x l IH]; simpl; [tauto|].
  rewrite filter_In, IH.
  destruct (String.eqb_spec x k) as [->|Hne]; simpl; [tauto|].
  split; [tauto|]. intros [H|H]; [congruence | tauto].
Qed.

Lemma first_occurrences_snoc (l : list string) (k : string) :
  first_occurrences (l ++ [k])
  = if existsb (String.eqb k) l then first_occurrences l
    else first_occurrences l ++ [k].
Proof.
  induction l as [|x l IH]; simpl; [reflexivity|].
  rewrite IH. rewrite (String.eqb_sym k x).
  destruct (String.eqb_spec x k) as [->|Hne]; simpl.
  - destruct (existsb (String.eqb k) l); [reflexivity|].
    rewrite filter_app. simpl. rewrite String.eqb_refl. simpl.
    now rewrite app_nil_r.
  - destruct (existsb (String.eqb k) l); [reflexivity|].
    rewrite filter_app. simpl.
    apply String.eqb_neq in Hne. now rewrite Hne.
Qed.

Lemma own_keys {V : Type} (o : JS.object V) (k : string) :
  existsb (String.eqb k) (map fst o)
  = match JS.own o k with Some _ => true | None => false end.
Proof.
  induction o as [|[k' v] o IH]; simpl; [reflexivity|].
  rewrite (String.eqb_sym k k').
  destruct (String.eqb k' k); simpl; [reflexivity | exact IH].
Qed.

Lemma flagged_snoc (k : string) (l : list Stat) (stat : Stat) :
  flagged k (l ++ [stat])
  = flagged k l ++ (if String.eqb (flagName stat) k then [stat] else []).
Proof. unfold flagged. now rewrite filter_app. Qed.

Lemma exact_step (processed : list Stat) (acc acc' : JS.object (list Stat))
  (stat : Stat) :
  groups_exactly processed acc -> group acc stat = Normal acc' ->
  groups_exactly (processed ++ [stat]) acc'.
Proof.
  intros [Hkeys Hown] Hg. rewrite group_cases in Hg.
  assert (Hex : existsb (String.eqb (flagName stat)) (map flagName processed)
                = match JS.own acc (flagName stat) with
                  | Some _ => true | None => false end).
  { rewrite <- own_keys, Hkeys.
    apply eq_true_iff_eq. rewrite !existsb_exists.
    split; intros [x [Hin Hx]]; exists x; split; trivial;
      now apply first_occurrences_In. }
  split.
  - rewrite map_app. cbn [map]. rewrite first_occurrences_snoc, Hex.
    destruct (JS.own acc (flagName stat)) as [stats|] eqn:E.
    + injection Hg as <-. now rewrite (set_own_keys _ _ _ _ E).
    + destruct (JS.inherited (flagName stat)); [discriminate|].
      injection Hg as <-. now rewrite map_app, Hkeys.
  - intro k. rewrite flagged_snoc.
    assert (Hacc' : acc' = JS.set acc (flagName stat)
                             (flagged (flagName stat) processed ++ [stat])).
    { specialize (Hown (flagName stat)).
      destruct (JS.own acc (flagName stat)) as [stats|] eqn:E.
      - injection Hg as <-.
        destruct (flagged (flagName stat) processed); congruence.
      - destruct (JS.inherited (flagName stat)); [discriminate|].
        injection Hg as <-.
        destruct (flagged (flagName stat) processed); [|discriminate].
        simpl. now rewrite set_new. }
    rewrite Hacc'.
    destruct (String.eqb_spec (flagName stat) k) as [<-|Hne].
    + rewrite own_set_same.
      destruct (flagged (flagName stat) processed); reflexivity.
    + rewrite own_set_other by congruence. rewrite app_nil_r. apply Hown.
Qed.

Lemma reduce_exact (rest processed : list Stat) (acc g : JS.object (list Stat)) :
  groups_exactly processed acc -> reduce group rest acc = Normal g ->
  groups_exactly (processed ++ rest) g.
Proof.
  revert processed acc.
  induction rest as [|stat rest IH]; intros processed acc Hacc; simpl.
  - intro H. injection H as <-. now rewrite app_nil_r.
  - destruct (group acc stat) as [acc'|e] eqn:Eg; simpl; [|discriminate].
    intro H.
    replace (processed ++ stat :: rest) with ((processed ++ [stat]) ++ rest)
      by now rewrite <- app_assoc.
    apply (IH _ acc'); [|exact H]. now apply (exact_step _ acc).
Qed.

Lemma groups_exactly_nil : groups_exactly [] [].
Proof. split; [reflexivity | intro k; reflexivity]. Qed.

Lemma getStatsByFlag_groups_exactly (st : State) (g : JS.object (list Stat)) :
  getStatsByFlag st = Normal g -> groups_exactly (filteredStats st) g.
Proof. apply (reduce_exact _ [] []), groups_exactly_nil. Qed.

(** X4. When the grouping completes, the keys of the object are the flag
    names of the records, each once, in the order of their first
    occurrence, and the bucket under a key holds the records of that flag
    name, all of them, in their order in the result of the search. *)
Theorem getStatsByFlag_exact (st : State) (g : JS.object (list Stat)) :
  getStatsByFlag st = Normal g ->
  map fst g = first_occurrences (map flagName (filteredStats st))
  /\ forall k, JS.own g k
               = match flagged k (filteredStats st) with
                 | [] => None
                 | b => Some b
                 end.
Proof. apply getStatsByFlag_groups_exactly. Qed.

Lemma getStatsByFlag_exact_witness :
  map fst [ (no_flag_label, [record None 5 "erreur"; record None 7 "indice"]);
            ("FR"%string, [record (Some "FR") 6 "passer"]) ]
  = [no_flag_label; "FR"%string]
  /\ JS.own [ (no_flag_label, [record None 5 "erreur"; record None 7 "indice"]);
              ("FR"%string, [record (Some "FR") 6 "passer"]) ] "FR"
     = Some [record (Some "FR") 6 "passer"].
Proof.
  destruct (getStatsByFlag_exact st_mixed _ eq_refl) as [Hk Ho].
  split; [exact Hk | exact (Ho "FR"%string)].
Defined.

End GroupExact.

(** ** More on the ranking *)

Module DivSelf.
Import FloatFacts.

Lemma new_location_zero (n : Z) : new_location n 0 = loc_Exact.
Proof. unfold new_location. destruct (Z.even n); reflexivity. Qed.

(** A positive finite Number divided by itself is 1. *)
Lemma SFdiv_self (m : positive) (e : Z) :
  SFdiv 53 1024 (S754_finite false m e) (S754_finite false m e)
  = S754_finite false 4503599627370496 (-52).
Proof.
  unfold SFdiv, SFdiv_core_binary. simpl Zdigits2. rewrite fexp_eq.
  replace (Z.pos (digits2_pos m) + e - (Z.pos (digits2_pos m) + e)) with 0 by lia.
  rewrite Z.sub_diag.
  change (IntDef.Z.min (Z.max (0 - 53) (-1074)) 0) with (-53).
  change (0 - -53) with 53. cbv iota.
  rewrite Z.shiftl_mul_pow2 by lia.
  pose proof (Z_div_mod (Z.pos m * 2 ^ 53) (Z.pos m) ltac:(lia)) as Hdm.
  change IntDef.Z.div_eucl with Z.div_eucl.
  destruct (Z.div_eucl (Z.pos m * 2 ^ 53) (Z.pos m)) as [q r].
  destruct Hdm as [Heq Hr].
  assert (Hq : q = 2 ^ 53 /\ r = 0).
  { assert (Z.pos m * (2 ^ 53 - q) = r) by lia.
    assert (2 ^ 53 - q = 0) by nia. lia. }
  destruct Hq as [-> ->]. rewrite new_location_zero. reflexivity.
Qed.

End DivSelf.

Module RankMore.
Import App Vocabulary Terms SortFacts GroupFacts RankFacts GroupExact PercentFacts.

Lemma insert_stable {A : Type} (key : A -> nat) (c : nat) (x : A) (l : list A) :
  filter (fun a => key a =? c)%nat (JS.insert (descending key) x l)
  = filter (fun a => key a =? c)%nat (x :: l).
Proof.
  induction l as [|y l IH]; [reflexivity|].
  cbn [JS.insert]. destruct (descending key x y <=? 0) eqn:E; [reflexivity|].
  apply Z.leb_gt in E. unfold descending in E.
  cbn [filter] in *. rewrite IH.
  destruct (Nat.eqb_spec (key x) c), (Nat.eqb_spec (key y) c);
    try reflexivity. lia.
Qed.

Lemma sort_stable {A : Type} (key : A -> nat) (c : nat) (l : list A) :
  filter (fun a => key a =? c)%nat (JS.sort (descending key) l)
  = filter (fun a => key a =? c)%nat l.
Proof.
  induction l as [|x l IH]; [reflexivity|].
  cbn [JS.sort]. rewrite insert_stable. cbn [filter]. now rewrite IH.
Qed.

Lemma In_own {V : Type} (o : JS.object V) (k : string) (v : V) :
  NoDup (map fst o) -> In (k, v) o -> JS.own o k = Some v.
Proof.
  induction o as [|[k' v'] o IH]; simpl; [tauto|].
  intros Hnd [Heq|Hin].
  - injection Heq as -> ->. now rewrite String.eqb_refl.
  - simpl in Hnd. apply NoDup_cons_iff in Hnd. destruct Hnd as [Hnotin Hnd].
    destruct (String.eqb_spec k' k) as [->|Hne]; [|apply IH; assumption].
    elim Hnotin. apply in_map_iff. now exists (k, v).
Qed.

Lemma entries_no_index {V : Type} (o : JS.object V) :
  Forall (fun p => JS.array_index (fst p) = None) o -> JS.entries o = o.
Proof.
  intro H. unfold JS.entries.
  assert (H1 : filter JS.is_index o = []).
  { induction H as [|p o Hp Ho IH]; cbn [filter]; [reflexivity|].
    unfold JS.is_index at 1. rewrite Hp. exact IH. }
  assert (H2 : filter (fun p => negb (JS.is_index p)) o = o).
  { clear H1. induction H as [|p o Hp Ho IH]; cbn [filter]; [reflexivity|].
    unfold JS.is_index at 1. rewrite Hp. cbn [negb]. now rewrite IH. }
  now rewrite H1, H2.
Qed.

Lemma first_occurrences_constant (k : string) (l : list string) :
  l <> [] -> Forall (eq k) l -> first_occurrences l = [k].
Proof.
  intros Hne Hall. induction Hall as [|x l <- Hl IH]; [congruence|].
  cbn [first_occurrences]. f_equal.
  destruct l as [|y l]; [reflexivity|].
  rewrite IH by discriminate. simpl. now rewrite String.eqb_refl.
Qed.

Lemma map_fst_filter {V : Type} (P : string * V -> bool) (Q : string -> bool)
  (o : JS.object V) :
  (forall p, In p o -> P p = Q (fst p)) ->
  map fst (filter P o) = filter Q (map fst o).
Proof.
  induction o as [|p o IH]; intro H; [reflexivity|].
  cbn [filter map]. rewrite <- (H p (or_introl eq_refl)).
  destruct (P p); cbn [map]; rewrite IH; auto using in_cons.
Qed.

Lemma inherited_In (k : string) :
  JS.inherited k = true <-> In k JS.Object_prototype_keys.
Proof.
  unfold JS.inherited. rewrite existsb_exists. split.
  - intros [x [Hin Hx]]. apply String.eqb_eq in Hx. now subst.
  - intro Hin. exists k. split; [exact Hin | apply String.eqb_refl].
Qed.

Lemma no_real_flag_label (stat : Stat) :
  String.eqb (flagName stat) no_flag_label = no_real_flag stat.
Proof.
  unfold flagName, no_real_flag.
  destruct (Stat.drapeau (Stat.data stat)) as [[|c d]|]; reflexivity.
Qed.

Section Ranking.

Variable Number_toString : JS.number -> string.

(** The ranking as a sort of the entries made from the buckets. *)
Lemma ranking_shape (st : State) (out : list CountryCount) :
  getCountriesByCount Number_toString st = Normal out ->
  exists g f,
    getStatsByFlag st = Normal g
    /\ out = JS.sort (descending count) (map f (JS.entries g))
    /\ (forall p, name (f p) = fst p /\ count (f p) = List.length (snd p))
    /\ ((0 < List.length (filteredStats st))%nat ->
        f = entry_of Number_toString (List.length (filteredStats st))).
Proof.
  intro H. apply getCountriesByCount_normal in H. destruct H as [g [Hg ->]].
  exists g. eexists. split; [exact Hg|]. split; [reflexivity|]. split.
  - intro p. now destruct (0 <? _)%nat.
  - intro Hpos. apply Nat.ltb_lt in Hpos. now rewrite Hpos.
Qed.

Lemma ranking_names (g : JS.object (list Stat))
  (f : string * list Stat -> CountryCount) :
  (forall p, name (f p) = fst p /\ count (f p) = List.length (snd p)) ->
  Permutation
    (map name (JS.sort (descending count) (map f (JS.entries g))))
    (map fst g).
Proof.
  intro Hf.
  eapply perm_trans; [apply Permutation_map, sort_perm|].
  rewrite map_map. rewrite (map_ext _ fst) by (intro p; apply Hf).
  apply Permutation_map, entries_perm.
Qed.

Lemma bucket_exact (st : State) (g : JS.object (list Stat))
  (p : string * list Stat) :
  getStatsByFlag st = Normal g -> In p g ->
  snd p = flagged (fst p) (filteredStats st).
Proof.
  intros Hg Hp.
  pose proof (grouped_keys _ _ (getStatsByFlag_grouped _ _ Hg)) as Hnd.
  destruct (getStatsByFlag_groups_exactly _ _ Hg) as [_ Hown].
  destruct p as [k b]. apply (In_own _ _ _ Hnd) in Hp.
  simpl in *. rewrite Hown in Hp.
  destruct (flagged k (filteredStats st)); congruence.
Qed.

Lemma entry_counts (st : State) (out : list CountryCount) :
  getCountriesByCount Number_toString st = Normal out ->
  Forall (fun e => count e
                   = List.length (flagged (name e) (filteredStats st))) out.
Proof.
  intro Hout. destruct (ranking_shape _ _ Hout) as (g & f & Hg & -> & Hf & _).
  apply Forall_forall. intros e Hin.
  apply (Permutation_in _ (sort_perm _ _ _)) in Hin.
  apply in_map_iff in Hin. destruct Hin as [p [<- Hp]].
  apply (Permutation_in _ (entries_perm g)) in Hp.
  destruct (Hf p) as [-> ->]. now rewrite (bucket_exact st g p Hg Hp).
Qed.

(** X5. Whenever the ranking is produced, its names are distinct, they
    are the flag names of the records of the result, and the count of an
    entry is the number of records that have its flag name. *)
Theorem ranking_entries (st : State) (out : list CountryCount) :
  getCountriesByCount Number_toString st = Normal out ->
  NoDup (map name out)
  /\ (forall k, In k (map name out) <->
                exists stat, In stat (filteredStats st) /\ flagName stat = k)
  /\ Forall (fun e => count e
                      = List.length (flagged (name e) (filteredStats st))) out.
Proof.
  intro Hout. split; [|split; [|now apply entry_counts]];
    destruct (ranking_shape _ _ Hout) as (g & f & Hg & -> & Hf & _);
    pose proof (ranking_names g f Hf) as Hperm.
  - apply (Permutation_NoDup (Permutation_sym Hperm)).
    apply (grouped_keys _ _ (getStatsByFlag_grouped _ _ Hg)).
  - intro k.
    destruct (getStatsByFlag_groups_exactly _ _ Hg) as [Hkeys _]. split.
    + intro Hin. apply (Permutation_in _ Hperm) in Hin.
      rewrite Hkeys in Hin. apply (proj1 (first_occurrences_In _ _)) in Hin.
      apply in_map_iff in Hin. destruct Hin as [stat [Hk Hs]]. now exists stat.
    + intros [stat [Hs Hk]]. apply (Permutation_in _ (Permutation_sym Hperm)).
      rewrite Hkeys. apply first_occurrences_In. apply in_map_iff.
      now exists stat.
Qed.

(** X6. The ranking is produced unless a record of the result has a flag
    name that is a property name of Object.prototype, in which case a
    TypeError is thrown; whenever it is produced, its counts sum to the
    number of records of the result. *)
Theorem ranking_returned_iff (st : State) :
  (getCountriesByCount Number_toString st = Throw TypeError <->
   exists stat, In stat (filteredStats st)
                /\ In (flagName stat) JS.Object_prototype_keys)
  /\ (forall out, getCountriesByCount Number_toString st = Normal out ->
                  total_count out = List.length (filteredStats st)).
Proof.
  split; [|apply getCountriesByCount_total_count].
  pose proof (getCountriesByCount_completes Number_toString st) as H.
  destruct (getCountriesByCount Number_toString st) as [out|[]]; split.
  - discriminate.
  - intros [stat [Hin Hk]]. apply inherited_In in Hk.
    assert (existsb (fun s => JS.inherited (flagName s)) (filteredStats st) = true)
      by (apply existsb_exists; now exists stat).
    congruence.
  - intros _. apply existsb_exists in H. destruct H as [stat [Hin Hk]].
    exists stat. split; [exact Hin | now apply inherited_In].
  - reflexivity.
Qed.

(** X7. Entries with the same count keep the order of [Object.entries];
    when no flag name is an array index, that is the order in which the
    flag names first occur in the result of the search. *)
Theorem ranking_ties (st : State) (out : list CountryCount) (n : nat) :
  getCountriesByCount Number_toString st = Normal out ->
  (forall g, getStatsByFlag st = Normal g ->
     map name (filter (fun e => count e =? n)%nat out)
     = map fst (filter (fun p => List.length (snd p) =? n)%nat (JS.entries g)))
  /\ ((forall stat, In stat (filteredStats st) ->
                    JS.array_index (flagName stat) = None) ->
      map name (filter (fun e => count e =? n)%nat out)
      = filter (fun k => List.length (flagged k (filteredStats st)) =? n)%nat
          (first_occurrences (map flagName (filteredStats st)))).
Proof.
  intro Hout. destruct (ranking_shape _ _ Hout) as (g & f & Hg & -> & Hf & _).
  assert (Hgen : map name (filter (fun e => count e =? n)%nat
                             (JS.sort (descending count) (map f (JS.entries g))))
                 = map fst (filter (fun p => List.length (snd p) =? n)%nat
                              (JS.entries g))).
  { rewrite sort_stable. clear Hout. induction (JS.entries g) as [|p E IH]; [reflexivity|].
    cbn [map filter]. destruct (Hf p) as [Hn Hc]. rewrite Hc.
    destruct (List.length (snd p) =? n)%nat; cbn [map]; now rewrite ?Hn, IH. }
  split.
  - intros g' Hg'. rewrite Hg in Hg'. injection Hg' as <-. exact Hgen.
  - intro Hidx. rewrite Hgen.
    destruct (getStatsByFlag_groups_exactly _ _ Hg) as [Hkeys _].
    rewrite entries_no_index.
    + rewrite <- Hkeys. apply map_fst_filter. intros p Hp.
      now rewrite (bucket_exact st g p Hg Hp).
    + apply Forall_forall. intros p Hp.
      assert (Hk : In (fst p) (map fst g)) by now apply in_map.
      rewrite Hkeys in Hk. apply (proj1 (first_occurrences_In _ _)) in Hk.
      apply in_map_iff in Hk. destruct Hk as [stat [<- Hs]]. now apply Hidx.
Qed.

(** X8. When the records of the result all have the same flag name, not a
    property name of Object.prototype, the ranking is one entry with that
    name, the number of records and "100.0%". *)
Theorem single_flag_ranking (st : State) (k : string) :
  filteredStats st <> [] ->
  (forall stat, In stat (filteredStats st) -> flagName stat = k) ->
  ~ In k JS.Object_prototype_keys ->
  Z.of_nat (List.length (filteredStats st)) < 2 ^ 53 ->
  getCountriesByCount Number_toString st
  = Normal [ {| name := k; count := List.length (filteredStats st);
                percentage := "100.0%" |} ].
Proof.
  intros Hne Hall Hk Hlen.
  assert (Hpos : (0 < List.length (filteredStats st))%nat)
    by (destruct (filteredStats st); [congruence | simpl; lia]).
  pose proof (getCountriesByCount_completes Number_toString st) as Hc.
  destruct (getCountriesByCount Number_toString st) as [out|e] eqn:Hout.
  - destruct (ranking_shape _ _ Hout) as (g & f & Hg & -> & _ & Hf).
    rewrite (Hf Hpos).
    destruct (getStatsByFlag_groups_exactly _ _ Hg) as [Hkeys Hown].
    rewrite (first_occurrences_constant k) in Hkeys.
    + assert (Hfl : flagged k (filteredStats st) = filteredStats st).
      { unfold flagged. clear -Hall.
        induction (filteredStats st) as [|s l IH]; [reflexivity|].
        cbn [filter]. rewrite (Hall s (or_introl eq_refl)), String.eqb_refl.
        f_equal. apply IH. intros x Hx. apply Hall. now right. }
      specialize (Hown k). rewrite Hfl in Hown.
      destruct g as [|[k' b] [|q g]]; try discriminate Hkeys.
      simpl in Hkeys. injection Hkeys as ->.
      simpl in Hown. rewrite String.eqb_refl in Hown.
      destruct (filteredStats st) as [|s l] eqn:El; [congruence|].
      injection Hown as ->.
      assert (HE : JS.entries [(k, s :: l)] = [(k, s :: l)]).
      { unfold JS.entries. cbn [filter].
        destruct (JS.is_index (k, s :: l)); reflexivity. }
      rewrite HE. cbn [map JS.sort JS.insert]. do 2 f_equal.
      unfold entry_of. cbn [fst snd]. f_equal.
      destruct (of_nat_small (List.length (s :: l)) Hpos Hlen) as [m [-> _]].
      unfold JS.div, JS.prec, JS.emax. rewrite DivSelf.SFdiv_self.
      reflexivity.
    + intro Hnil. apply map_eq_nil in Hnil. congruence.
    + apply Forall_forall. intros x Hx. apply in_map_iff in Hx.
      destruct Hx as [stat [<- Hs]]. symmetry. now apply Hall.
  - exfalso. apply existsb_exists in Hc. destruct Hc as [stat [Hin Hi]].
    rewrite (Hall stat Hin) in Hi. apply inherited_In in Hi. contradiction.
Qed.

(** X9. The entry named "Tous drapeaux" counts the records that have no
    flag, those whose flag is the empty string and those whose flag is
    "Tous drapeaux" itself. *)
Theorem no_flag_entry_counts (st : State) (out : list CountryCount)
  (e : CountryCount) :
  getCountriesByCount Number_toString st = Normal out ->
  In e out -> name e = no_flag_label ->
  count e = List.length (filter no_real_flag (filteredStats st)).
Proof.
  intros Hout Hin Hname.
  pose proof (entry_counts st out Hout) as Hall.
  rewrite Forall_forall in Hall. rewrite (Hall e Hin), Hname.
  unfold flagged. f_equal. apply filter_ext. apply no_real_flag_label.
Qed.

End Ranking.

Lemma ranking_entries_witness :
  NoDup ["FR"; "DE"]%string
  /\ (In "DE"%string ["FR"; "DE"]%string <->
      exists stat, In stat three_records /\ flagName stat = "DE"%string)
  /\ (2 = List.length (flagged "FR" three_records))%nat.
Proof.
  assert (H : getCountriesByCount (fun _ => ""%string) (handleSearch st_loaded)
              = Normal [ {| name := "FR"; count := 2; percentage := "66.7%" |};
                         {| name := "DE"; count := 1; percentage := "33.3%" |} ])
    by reflexivity.
  destruct (ranking_entries (fun _ => ""%string) (handleSearch st_loaded) _ H)
    as (Hnd & Hnames & Hcounts).
  split; [exact Hnd|]. split; [exact (Hnames "DE"%string)|].
  exact (Forall_inv Hcounts).
Defined.

Lemma ranking_returned_iff_witness :
  getCountriesByCount (fun _ => ""%string) (handleSearch st_constructor)
  = Throw TypeError
  /\ total_count [ {| name := "FR"; count := 2; percentage := "66.7%" |};
                   {| name := "DE"; count := 1; percentage := "33.3%" |} ]
     = 3%nat.
Proof.
  split.
  - apply (proj1 (ranking_returned_iff (fun _ => ""%string)
                    (handleSearch st_constructor))).
    exists (record (Some "constructor") 5 "erreur").
    split; left; reflexivity.
  - apply (proj2 (ranking_returned_iff (fun _ => ""%string)
                    (handleSearch st_loaded))).
    reflexivity.
Defined.

Lemma ranking_ties_witness :
  getCountriesByCount (fun _ => ""%string) st_ties
  = Normal [ {| name := "DE"; count := 2; percentage := "50.0%" |};
             {| name := "FR"; count := 2; percentage := "50.0%" |} ]
  /\ ["DE"; "FR"]%string
     = filter (fun k => List.length (flagged k (filteredStats st_ties)) =? 2)%nat
         (first_occurrences (map flagName (filteredStats st_ties))).
Proof.
  assert (H : getCountriesByCount (fun _ => ""%string) st_ties
              = Normal [ {| name := "DE"; count := 2; percentage := "50.0%" |};
                         {| name := "FR"; count := 2; percentage := "50.0%" |} ])
    by reflexivity.
  split; [exact H|].
  apply (proj2 (ranking_ties (fun _ => ""%string) st_ties _ 2%nat H)).
  intros stat Hin.
  repeat (destruct Hin as [<-|Hin]; [reflexivity|]). destruct Hin.
Defined.

Lemma single_flag_ranking_witness :
  getCountriesByCount (fun _ => ""%string) st_two_FR
  = Normal [ {| name := "FR"; count := 2; percentage := "100.0%" |} ].
Proof.
  apply (single_flag_ranking (fun _ => ""%string) st_two_FR "FR").
  - discriminate.
  - intros stat Hin.
    repeat (destruct Hin as [<-|Hin]; [reflexivity|]). destruct Hin.
  - intro Hin. repeat (destruct Hin as [Hin|Hin]; [discriminate Hin|]).
    destruct Hin.
  - reflexivity.
Defined.

Lemma no_flag_entry_counts_witness :
  (2 = List.length (filter no_real_flag (filteredStats st_mixed)))%nat.
Proof.
  apply (no_flag_entry_counts (fun _ => ""%string) st_mixed
           [ {| name := no_flag_label; count := 2; percentage := "66.7%" |};
             {| name := "FR"; count := 1; percentage := "33.3%" |} ]
           {| name := no_flag_label; count := 2; percentage := "66.7%" |}).
  - reflexivity.
  - left; reflexivity.
  - reflexivity.
Defined.

End RankMore.

(** ** Rendering and the life of a request *)

Module RenderFacts.
Import App Vocabulary Terms SortFacts GroupFacts RankFacts RankMore.

Section Render.

Variable Number_toString : JS.number -> string.

Lemma getCountriesByCount_nil (st : State) :
  filteredStats st = [] -> getCountriesByCount Number_toString st = Normal [].
Proof.
  intro H. unfold getCountriesByCount, getStatsByFlag. now rewrite H.
Qed.

Lemma render_cases (st : State) :
  render Number_toString st
  = (countriesByCount <- getCountriesByCount Number_toString st ;;
     Normal
       (if loading st then LoadingView
        else if match error st with Some m => JS.truthy m | None => false end
             then ErrorView (match error st with Some m => m | None => "" end)
             else ResultsView (List.length (allStats st))
                    (List.length (filteredStats st))
                    (if (0 <? List.length (filteredStats st))%nat
                     then countriesByCount else []))).
Proof.
  unfold render. destruct (getCountriesByCount Number_toString st); simpl;
    [|reflexivity].
  destruct (loading st); [reflexivity|].
  destruct (error st) as [m|]; [destruct (JS.truthy m)|]; reflexivity.
Qed.

(** X10. In the results view, the number of loaded events is the number
    of loaded records, the number in the heading of the results is the
    number of records found, and the counts of the ranking rows add up to
    it; no row is shown exactly when nothing was found. *)
Theorem results_view_consistent (st : State) (loaded results : nat)
  (ranking : list CountryCount) :
  render Number_toString st = Normal (ResultsView loaded results ranking) ->
  loaded = List.length (allStats st)
  /\ results = List.length (filteredStats st)
  /\ total_count ranking = results
  /\ (ranking = [] <-> results = 0%nat).
Proof.
  rewrite render_cases.
  destruct (getCountriesByCount Number_toString st) as [out|e] eqn:Hout;
    simpl; [|discriminate].
  destruct (loading st); [discriminate|].
  destruct (match error st with Some m => JS.truthy m | None => false end);
    [discriminate|].
  intro H. injection H as <- <- <-.
  pose proof (getCountriesByCount_total_count _ _ _ Hout) as Hsum.
  destruct (0 <? List.length (filteredStats st))%nat eqn:E.
  - apply Nat.ltb_lt in E. repeat split; trivial.
    + intros ->. unfold total_count in Hsum. simpl in Hsum. lia.
    + lia.
  - apply Nat.ltb_ge in E. repeat split; trivial; unfold total_count; simpl; lia.
Qed.

(** X11. Rendering throws a TypeError exactly when a record of the result
    of the search has a flag name that is a property name of
    Object.prototype, whether the component is loading, in error or
    ready; it never throws while the result is empty. *)
Theorem render_throws_iff (st : State) :
  (render Number_toString st = Throw TypeError <->
   exists stat, In stat (filteredStats st)
                /\ In (flagName stat) JS.Object_prototype_keys)
  /\ (filteredStats st = [] -> exists v, render Number_toString st = Normal v).
Proof.
  split.
  - rewrite render_cases.
    pose proof (getCountriesByCount_completes Number_toString st) as H.
    destruct (getCountriesByCount Number_toString st) as [out|[]]; simpl; split.
    + discriminate.
    + intros [stat [Hin Hk]]. apply inherited_In in Hk.
      assert (existsb (fun s => JS.inherited (flagName s)) (filteredStats st) = true)
        by (apply existsb_exists; now exists stat).
      congruence.
    + intros _. apply existsb_exists in H. destruct H as [stat [Hin Hk]].
      exists stat. split; [exact Hin | now apply inherited_In].
    + reflexivity.
  - intro Hnil. rewrite render_cases, (getCountriesByCount_nil st Hnil). simpl.
    eexists. reflexivity.
Qed.

End Render.

Lemma results_view_consistent_witness :
  render (fun _ => ""%string) (handleSearch st_loaded)
  = Normal (ResultsView 3 3
              [ {| name := "FR"; count := 2; percentage := "66.7%" |};
                {| name := "DE"; count := 1; percentage := "33.3%" |} ])
  /\ total_count [ {| name := "FR"; count := 2; percentage := "66.7%" |};
                   {| name := "DE"; count := 1; percentage := "33.3%" |} ]
     = 3%nat.
Proof.
  assert (H : render (fun _ => ""%string) (handleSearch st_loaded)
              = Normal (ResultsView 3 3
                          [ {| name := "FR"; count := 2; percentage := "66.7%" |};
                            {| name := "DE"; count := 1; percentage := "33.3%" |} ]))
    by reflexivity.
  split; [exact H|].
  exact (proj1 (proj2 (proj2 (results_view_consistent _ _ _ _ _ H)))).
Defined.

Lemma render_throws_iff_witness :
  render (fun _ => ""%string) (handleSearch st_constructor) = Throw TypeError
  /\ exists v, render (fun _ => ""%string) st_loaded = Normal v.
Proof.
  split.
  - apply (proj1 (render_throws_iff (fun _ => ""%string)
                    (handleSearch st_constructor))).
    exists (record (Some "constructor") 5 "erreur").
    split; left; reflexivity.
  - apply (proj2 (render_throws_iff (fun _ => ""%string) st_loaded)).
    reflexivity.
Defined.

End RenderFacts.

Module SessionFacts.
Import App Vocabulary Terms Session GroupFacts RankFacts RenderFacts.

Section Facts.

Variable Number_toString : JS.number -> string.

Lemma render_loading (st : State) (v : view) :
  render Number_toString st = Normal v ->
  loading st = true -> v = LoadingView.
Proof.
  rewrite render_cases.
  destruct (getCountriesByCount Number_toString st); simpl; [|discriminate].
  intros H Hl. rewrite Hl in H. congruence.
Qed.

Lemma step_user (c c' : component) (ev : event) :
  (forall o, ev <> Settle o) ->
  step Number_toString c ev = Some c' ->
  exists v, render Number_toString (state c) = Normal v
            /\ offered v ev = true
            /\ c' = {| state := fst (dispatch ev (state c));
                       pending := pending c
                                  + List.length (filter is_fetch
                                                   (snd (dispatch ev (state c)))) |}.
Proof.
  intros Hev Hstep. unfold step in Hstep.
  destruct ev; try (now elim (Hev o)); cbv iota beta in Hstep;
    (destruct (render Number_toString (state c)) as [v|e];
       [|discriminate Hstep];
     match type of Hstep with
     | context [if ?b then _ else _] => destruct b eqn:Eo
     end; [|discriminate Hstep];
     injection Hstep as <-; exists v; repeat split; assumption).
Qed.

Lemma step_invariant (c c' : component) (ev : event) :
  settled_or_loading c -> step Number_toString c ev = Some c' ->
  settled_or_loading c'.
Proof.
  intros Hinv Hstep. unfold settled_or_loading in *.
  destruct ev as [u|t| | | |o].
  6: { unfold step in Hstep.
       destruct (pending c) as [|n] eqn:Ep; [discriminate|].
       injection Hstep as <-.
       destruct (loading (state c)); [|lia].
       destruct Hinv as (H1 & _ & _).
       unfold fetchData_settle. destruct (fetchData_try o); simpl; lia. }
  all: match type of Hstep with
       | step _ _ ?ev = _ =>
           destruct (step_user c c' ev ltac:(intro; discriminate) Hstep)
             as (v & Hr & Ho & ->)
       end;
    destruct (loading (state c)) eqn:El;
    [ rewrite (render_loading _ _ Hr El) in Ho; discriminate |];
    simpl; rewrite ?El; simpl; try lia.
  repeat split. lia.
Qed.

Lemma steps_invariant (evs : list event) (c c' : component) :
  settled_or_loading c -> steps Number_toString c evs = Some c' ->
  settled_or_loading c'.
Proof.
  revert c. induction evs as [|ev evs IH]; intros c Hinv; simpl.
  - intro H. now injection H as <-.
  - destruct (step Number_toString c ev) as [c1|] eqn:E; [|discriminate].
    apply IH. now apply (step_invariant c c1 ev).
Qed.

Lemma mounted_invariant : settled_or_loading mounted.
Proof. repeat split. Qed.

(** X12. From the mount on, with the user acting only on what the view
    shows, at most one request is pending, one is pending exactly while
    the component is loading, and while it is loading no control can be
    used: a second request cannot be started before the first settles. *)
Theorem one_request_at_a_time (evs : list event) (c : component) :
  steps Number_toString mounted evs = Some c ->
  (pending c <= 1)%nat
  /\ (pending c = 1%nat <-> loading (state c) = true)
  /\ (loading (state c) = true ->
      forall ev, (forall o, ev <> Settle o) -> step Number_toString c ev = None).
Proof.
  intro Hsteps.
  pose proof (steps_invariant evs _ _ mounted_invariant Hsteps) as Hinv.
  unfold settled_or_loading in Hinv.
  destruct (loading (state c)) eqn:El.
  - destruct Hinv as (Hp & _ & _). repeat split; try lia.
    intros _ ev Hev.
    destruct (step Number_toString c ev) as [c'|] eqn:E; [|reflexivity].
    destruct (step_user c c' ev Hev E) as (v & Hr & Ho & _).
    rewrite (render_loading _ _ Hr El) in Ho. discriminate.
  - repeat split; try lia; try discriminate.
Qed.

(** X13. From the mount on, when the pending request is answered with a
    status in 200..299 and a body that parses, the loaded records become
    the received ones, nothing remains pending, and the component shows
    the results view with their number, no result and no ranking. *)
Theorem load_success (evs : list event) (c : component) (response : Response)
  (stats : list Stat) :
  steps Number_toString mounted evs = Some c ->
  loading (state c) = true ->
  ok response = true -> json response = inr stats ->
  exists c',
    step Number_toString c (Settle (Fulfilled response)) = Some c'
    /\ pending c' = 0%nat
    /\ allStats (state c') = stats
    /\ render Number_toString (state c')
       = Normal (ResultsView (List.length stats) 0 []).
Proof.
  intros Hsteps Hl Hok Hjson.
  pose proof (steps_invariant evs _ _ mounted_invariant Hsteps) as Hinv.
  unfold settled_or_loading in Hinv. rewrite Hl in Hinv.
  destruct Hinv as (Hp & He & Hf).
  unfold step. rewrite Hp. eexists. split; [reflexivity|].
  unfold fetchData_settle, fetchData_try. rewrite Hok, Hjson. simpl.
  repeat split.
  rewrite render_cases, getCountriesByCount_nil by exact Hf.
  simpl. now rewrite He, Hf.
Qed.

(** X14. From the mount on, when the pending request fails (the request
    is rejected, the status is outside 200..299, or the body does not
    parse), the loaded records stay as they were and nothing remains
    pending; the component shows the error view with the message of the
    error, or "Une erreur est survenue" for a value that is no Error, and
    the retry is offered. An empty message is not shown: the results view
    comes back. *)
Theorem load_failure (evs : list event) (c : component) (o : outcome)
  (err : thrown) :
  steps Number_toString mounted evs = Some c ->
  loading (state c) = true ->
  fetchData_try o = inl err ->
  exists c',
    step Number_toString c (Settle o) = Some c'
    /\ pending c' = 0%nat
    /\ allStats (state c') = allStats (state c)
    /\ error (state c') = Some (message_of err)
    /\ render Number_toString (state c')
       = Normal (if JS.truthy (message_of err)
                 then ErrorView (message_of err)
                 else ResultsView (List.length (allStats (state c))) 0 [])
    /\ offered (ErrorView (message_of err)) ClickRefresh = true.
Proof.
  intros Hsteps Hl Htry.
  pose proof (steps_invariant evs _ _ mounted_invariant Hsteps) as Hinv.
  unfold settled_or_loading in Hinv. rewrite Hl in Hinv.
  destruct Hinv as (Hp & He & Hf).
  unfold step. rewrite Hp. eexists. split; [reflexivity|].
  unfold fetchData_settle. rewrite Htry. simpl.
  repeat split.
  rewrite render_cases, getCountriesByCount_nil by exact Hf.
  simpl. fold (message_of err). rewrite Hf.
  now destruct (JS.truthy (message_of err)).
Qed.

End Facts.

Lemma one_request_at_a_time_witness :
  exists c,
    steps (fun _ => ""%string) mounted session_refresh = Some c
    /\ pending c = 1%nat
    /\ step (fun _ => ""%string) c ClickSearch = None.
Proof.
  eexists. split; [reflexivity|].
  match goal with
  | |- pending ?c = _ /\ _ =>
      destruct (one_request_at_a_time (fun _ => ""%string) session_refresh c
                  eq_refl) as (_ & Hp & Hnone)
  end.
  split.
  - apply Hp. reflexivity.
  - apply Hnone; [reflexivity | discriminate].
Defined.

Lemma load_success_witness :
  exists c',
    step (fun _ => ""%string) mounted
      (Settle (Fulfilled (response_200 three_records))) = Some c'
    /\ allStats (state c') = three_records
    /\ render (fun _ => ""%string) (state c') = Normal (ResultsView 3 0 []).
Proof.
  destruct (load_success (fun _ => ""%string) [] mounted
              (response_200 three_records) three_records)
    as (c' & Hs & _ & Ha & Hr); try reflexivity.
  exists c'. split; [exact Hs|]. split; [exact Ha | exact Hr].
Defined.

Lemma load_failure_witness :
  exists c c',
    steps (fun _ => ""%string) mounted session_refresh = Some c
    /\ step (fun _ => ""%string) c (Settle (Fulfilled response_500)) = Some c'
    /\ allStats (state c') = three_records
    /\ render (fun _ => ""%string) (state c')
       = Normal (ErrorView "Erreur HTTP: 500").
Proof.
  eexists.
  match goal with
  | |- exists c', steps _ _ _ = Some ?c /\ _ =>
      destruct (load_failure (fun _ => ""%string) session_refresh c
                  (Fulfilled response_500) (Error "Erreur HTTP: 500")
                  eq_refl eq_refl eq_refl)
        as (c' & Hs & _ & Ha & _ & Hr & _)
  end.
  exists c'. split; [reflexivity|]. split; [exact Hs|].
  split; [exact Ha | exact Hr].
Defined.

End SessionFacts.

(** ** The head of the ranking *)

Module RankTop.
Import App Vocabulary Terms SortFacts GroupFacts RankFacts GroupExact RankMore.

Section Top.

Variable Number_toString : JS.number -> string.

Lemma follows_transitive {A : Type} (key : A -> nat) :
  Relations_1.Transitive (follows key).
Proof. intros a b c Hab Hbc. unfold follows in *. lia. Qed.

(** X15. Whenever the ranking is produced, it has one entry for each
    distinct flag name of the result of the search, and no entry has a
    larger count than the first one. *)
Theorem ranking_top (st : State) (out : list CountryCount) :
  getCountriesByCount Number_toString st = Normal out ->
  List.length out
  = List.length (first_occurrences (map flagName (filteredStats st)))
  /\ forall first rest,
       out = first :: rest ->
       Forall (fun e => (count e <= count first)%nat) rest.
Proof.
  intro Hout. destruct (ranking_shape _ _ _ Hout) as (g & f & Hg & -> & Hf & _).
  split.
  - destruct (getStatsByFlag_groups_exactly _ _ Hg) as [Hkeys _].
    rewrite <- Hkeys, <- (Permutation_length (ranking_names g f Hf)).
    now rewrite length_map.
  - intros first rest Heq.
    pose proof (sort_sorted _ count (map f (JS.entries g))) as Hs.
    rewrite Heq in Hs.
    apply (Sorted_StronglySorted (follows_transitive count)) in Hs.
    now inversion Hs.
Qed.

End Top.

Lemma ranking_top_witness :
  (2 = List.length (first_occurrences (map flagName three_records)))%nat
  /\ Forall (fun e => (count e <= 2)%nat)
       [ {| name := "DE"; count := 1; percentage := "33.3%" |} ].
Proof.
  assert (H : getCountriesByCount (fun _ => ""%string) (handleSearch st_loaded)
              = Normal [ {| name := "FR"; count := 2; percentage := "66.7%" |};
                         {| name := "DE"; count := 1; percentage := "33.3%" |} ])
    by reflexivity.
  destruct (ranking_top (fun _ => ""%string) (handleSearch st_loaded) _ H)
    as [Hlen Htop].
  split; [exact Hlen|]. exact (Htop _ _ eq_refl).
Defined.

End RankTop.

(** ** Text typed in the identifier field *)

Module FieldFacts.
Import App Vocabulary Terms Field SearchFacts ParseFacts.

(** The field hands over a valid floating-point number or nothing. *)
Lemma number_value_cases (text : string) :
  (number_value text = text /\ valid_floating_point_number text = true)
  \/ (number_value text = ""%string
      /\ valid_floating_point_number text = false).
Proof.
  unfold number_value.
  destruct (valid_floating_point_number text); [left | right]; now split.
Qed.



Example number_values :
  map number_value ["5"; "-5"; "5.9"; ".5"; "1e3"; "abc"; "12abc"; " 5"; "5.";
                    "1e"; "0x1F"; ""]%string
  = ["5"; "-5"; "5.9"; ".5"; "1e3"; ""; ""; ""; ""; ""; ""; ""]%string.
Proof. reflexivity. Qed.

(** Leading white space of one, two and three bytes is skipped. *)
Example parseInt_white_space :
  JS.parseInt (String (ascii_of_nat 9) "5") = JS.of_Z 5
  /\ JS.parseInt (String (ascii_of_nat 194) (String (ascii_of_nat 160) "5"))
     = JS.of_Z 5
  /\ JS.parseInt (String (ascii_of_nat 227) (String (ascii_of_nat 128)
                    (String (ascii_of_nat 128) " -42px")))
     = JS.of_Z (-42)
  /\ JS.parseInt (String (ascii_of_nat 239) (String (ascii_of_nat 187)
                    (String (ascii_of_nat 191) "7")))
     = JS.of_Z 7.
Proof. repeat split. Qed.

End FieldFacts.
